(** * listdir: the path model, the path list and the rendering policy

    A shallow embedding of [src/main.c].  C strings are [string]s: the
    contents of a buffer up to its first NUL, so a NUL is never an element.
    A pointer that a function tests against NULL is an [option]; a
    function that returns an error code and fills a caller's buffer
    returns a [result]: [Ok] of what it wrote when it returns 0, [Err] of
    the return value otherwise.  Destination pointers ([PathQuery * p],
    [char * buf] written but never read) are addresses of locals at every
    call site and are not represented.  A function that writes to the
    standard output returns what it wrote, as a list of events; it
    returns [None] where the behaviour of the program is undefined: a copy
    past the end of an array, a read through a null pointer.

    [PATH_MAX] comes from the platform's [<limits.h>]; it is a parameter
    of every definition that declares a buffer of that size. *)

From Stdlib Require Import ZArith Ascii String List Permutation Lia Bool.
From stdpp Require Import base list strings.
From stdpp Require Import sorting.

Local Open Scope Z_scope.

(** ** C library primitives *)

Definition int := Z.

Inductive result (A : Type) : Type :=
| Ok (a : A)
| Err (code : int).
Arguments Ok {A} a.
Arguments Err {A} code.

(** The C string left in a buffer once a NUL is stored at index [n]; also
    the first [n] bytes of [s] when [s] is longer than that. *)
Fixpoint string_take (n : nat) (s : string) : string :=
  match n, s with
  | S n', String c s' => String c (string_take n' s')
  | _, _ => EmptyString
  end.

(** The C string at [buf + n], for [n] within the string. *)
Fixpoint string_drop (n : nat) (s : string) : string :=
  match n, s with
  | S n', String _ s' => string_drop n' s'
  | _, _ => s
  end.

(** [strncpy(dst, src, n)]: copies [src] whole when it is shorter than
    [n].  A source of [n] bytes or more leaves [dst] without a terminator;
    the model keeps the [n] bytes copied, and every statement that
    depends on the contents assumes the source fits. *)
Definition strncpy (src : string) (n : nat) : string := string_take n src.

(** [snprintf(dst, n, fmt, ...)], given the fully formatted text: at most
    [n - 1] bytes are stored, then the terminator. *)
Definition snprintf (n : nat) (formatted : string) : string :=
  string_take (n - 1) formatted.

(** [strcmp].  C fixes only the sign of the result; the model returns
    -1, 0 or 1, comparing bytes as unsigned values. *)
Fixpoint strcmp (a b : string) : int :=
  match a, b with
  | EmptyString, EmptyString => 0
  | EmptyString, String _ _ => -1
  | String _ _, EmptyString => 1
  | String c a', String d b' =>
      match (N_of_ascii c ?= N_of_ascii d)%N with
      | Lt => -1
      | Gt => 1
      | Eq => strcmp a' b'
      end
  end.

(** [for (k = i; k < i + n; k++) s = body k s]. *)
Fixpoint for_loop {St : Type} (n i : nat) (body : nat -> St -> St) (s : St) : St :=
  match n with
  | O => s
  | S n' => for_loop n' (S i) body (body i s)
  end.

(** Contents of a buffer after a call whose return value the caller
    drops.  The calls concerned pass the address of a local array, on
    which the callee cannot fail. *)
Definition written (r : result string) : string :=
  match r with
  | Ok s => s
  | Err _ => EmptyString
  end.

(** ** Text normalisation, [main.c] lines 170-204 *)

Definition RemoveLeadingPeriodAndForwardSlashes (buf : option string)
  : result string :=
  match buf with
  | None => Err 1
  | Some buf =>
      let s : nat :=
        match String.get 0 buf, String.get 1 buf with
        | Some "."%char, Some "/"%char => 2%nat
        | _, _ => 0%nat
        end in
      if (s =? 0)%nat then Ok buf
      else (* memmove(buf, buf + s, strlen(buf + s) + 1) *)
        Ok (string_drop s buf)
  end.

(** The body of the [for] loop, entered with the value of [i]; the
    condition [i > 0] fails on [O]. *)
Fixpoint RemoveTrailingForwardSlashes_loop (buf : string) (i : nat) : string :=
  match i with
  | O => buf
  | S i' =>
      match String.get i buf with
      | Some "/"%char => RemoveTrailingForwardSlashes_loop (string_take i buf) i'
      | _ => buf
      end
  end.

(** [int i = strlen(buf) - 1]: -1 on the empty string, where the loop is
    not entered, as for 0. *)
Definition RemoveTrailingForwardSlashes (buf : option string) : result string :=
  match buf with
  | None => Err 1
  | Some buf =>
      Ok (RemoveTrailingForwardSlashes_loop buf (String.length buf - 1))
  end.

(** ** PathQuery, lines 59-80 and 206-274 *)

#[warnings="-register-all"]
Inductive PathQuery : Type := mkPathQuery {
  p : string;
  parent : option PathQuery;
  lvl : Z  (* unsigned char *)
}.

Section PathQuery.
Variable PATH_MAX : nat.

Definition PathQueryCreate (path : option string) : result PathQuery :=
  match path with
  | None => Err 1
  | Some path =>
      let buf := strncpy path PATH_MAX in
      let buf := written (RemoveTrailingForwardSlashes (Some buf)) in
      Ok {| p := buf; parent := None; lvl := 0 |}
  end.

Definition PathQueryCreateChild (q : option PathQuery) (leaf : option string)
  : result PathQuery :=
  match q, leaf with
  | Some q, Some leaf =>
      let buf := strncpy leaf PATH_MAX in
      let l := (lvl q + 1) mod 256 in
      let buf := written (RemoveTrailingForwardSlashes (Some buf)) in
      let buf := written (RemoveLeadingPeriodAndForwardSlashes (Some buf)) in
      Ok {| p := buf; parent := Some q; lvl := l |}
  | _, _ => Err 1
  end.

(** The [do ... while ((q = q->parent) != NULL)] loop; [path] is the
    local accumulator. *)
Fixpoint PathQueryGetPath_loop (q : PathQuery) (path : string) : string :=
  let t := snprintf PATH_MAX (p q +:+ "/" +:+ path) in
  let path := strncpy t PATH_MAX in
  match parent q with
  | Some q' => PathQueryGetPath_loop q' path
  | None => path
  end.

Definition PathQueryGetPath (q : option PathQuery) : result string :=
  match q with
  | None => Err 1
  | Some q =>
      let path := PathQueryGetPath_loop q EmptyString in
      let path := written (RemoveTrailingForwardSlashes (Some path)) in
      Ok (strncpy path PATH_MAX)
  end.
End PathQuery.

Definition PathQueryGetLevel (q : option PathQuery) : Z :=
  match q with
  | None => 1
  | Some q => lvl q
  end.

Definition PathQueryIsFile (BFFileSystemPathIsFile : string -> bool)
    (q : option PathQuery) : bool :=
  match q with
  | None => false
  | Some q => BFFileSystemPathIsFile (p q)
  end.

(** ** PathList, lines 82-94 and 276-293

    Each [(char **, size_t)] pair is the list of its elements:
    [sizefile] and [sizedir] are the lengths. *)

Record PathList : Type := mkPathList {
  arrayfile : list string;
  arraydir : list string
}.

Definition sizefile (paths : PathList) : nat := length (arrayfile paths).
Definition sizedir (paths : PathList) : nat := length (arraydir paths).

Definition PathListGetSize (paths : option PathList) : nat :=
  match paths with
  | None => 0%nat
  | Some paths => (sizefile paths + sizedir paths)%nat
  end.

Definition PathListGetPathAtIndex (paths : option PathList) (index : nat)
  : result string :=
  match paths with
  | None => Err 1
  | Some ps =>
      if (PathListGetSize paths <=? index)%nat then Err 1
      else if (index <? sizefile ps)%nat then
        let s := arrayfile ps !!! index in
        Ok (strncpy s (String.length s + 1))
      else
        let s := arraydir ps !!! (index - sizefile ps)%nat in
        Ok (strncpy s (String.length s + 1))
  end.

(** ** ArraySort, lines 315-340 *)

(** Reads go through [!!!]; an index at or beyond the end of the array
    is outside the allocation in C, and every statement below takes
    [size] to be the length of [array]. *)
Definition ArraySort_min (array : list string) (size i : nat) : nat :=
  for_loop (size - (i + 1)) (i + 1)
    (fun j min => if strcmp (array !!! j) (array !!! min) <? 0 then j else min)
    i.

Definition ArraySort_loop (array : list string) (size : nat) : list string :=
  for_loop size 0
    (fun i array =>
       let min := ArraySort_min array size i in
       if negb (min =? i)%nat then
         let tmp := array !!! min in
         let array := <[min := array !!! i]> array in
         <[i := tmp]> array
       else array)
    array.

Definition ArraySort (array : option (list string)) (size : nat)
  : result (list string) :=
  match array with
  | None => Err 1
  | Some array => Ok (ArraySort_loop array size)
  end.

(** ** Metadata, lines 455-508 *)

(** The fields of [struct stat] that the program reads. *)
Record struct_stat : Type := mkStat {
  st_mode : Z;
  st_size : Z;
  st_mtime : Z;
  st_atime : Z;
  st_ctime : Z;
  st_uid : Z;
  st_gid : Z
}.

Record dirent : Type := mkDirent {
  d_name : string;
  d_type : Z
}.

(** Values of [<sys/stat.h>] and [<dirent.h>] (octal in the headers). *)
Definition S_IFMT : Z := 61440.   (* 0170000 *)
Definition S_IFSOCK : Z := 49152. (* 0140000 *)
Definition S_IFLNK : Z := 40960.  (* 0120000 *)
Definition S_IFREG : Z := 32768.  (* 0100000 *)
Definition S_IFBLK : Z := 24576.  (* 0060000 *)
Definition S_IFDIR : Z := 16384.  (* 0040000 *)
Definition S_IFCHR : Z := 8192.   (* 0020000 *)
Definition S_IFIFO : Z := 4096.   (* 0010000 *)
Definition S_IRWXU : Z := 448.    (* 0700 *)
Definition S_IRWXG : Z := 56.     (* 0070 *)
Definition S_IRWXO : Z := 7.      (* 0007 *)
Definition DT_DIR : Z := 4.

Definition S_ISLNK (m : Z) : bool := Z.land m S_IFMT =? S_IFLNK.

Definition STAT_MOD_TYPE_BDEV : ascii := "b".
Definition STAT_MOD_TYPE_CDEV : ascii := "c".
Definition STAT_MOD_TYPE_DIR : ascii := "d".
Definition STAT_MOD_TYPE_FIFO : ascii := "p".
Definition STAT_MOD_TYPE_SYMLINK : ascii := "l".
Definition STAT_MOD_TYPE_FILE : ascii := "f".
Definition STAT_MOD_TYPE_SOCKET : ascii := "s".
Definition STAT_MOD_TYPE_UNKNOWN : ascii := "?".

Definition DQUOTE : string := String (ascii_of_nat 34) EmptyString.
Definition ESC : string := String (ascii_of_nat 27) EmptyString.
Definition ANSI_COLOR_RED : string := ESC +:+ "[31m".
Definition ANSI_COLOR_GREEN : string := ESC +:+ "[32m".
Definition ANSI_COLOR_MAGENTA : string := ESC +:+ "[35m".
Definition ANSI_COLOR_CYAN : string := ESC +:+ "[36m".

Definition StatGetModeType (st : struct_stat) : ascii :=
  let t := Z.land (st_mode st) S_IFMT in
  if t =? S_IFBLK then STAT_MOD_TYPE_BDEV
  else if t =? S_IFCHR then STAT_MOD_TYPE_CDEV
  else if t =? S_IFDIR then STAT_MOD_TYPE_DIR
  else if t =? S_IFIFO then STAT_MOD_TYPE_FIFO
  else if t =? S_IFLNK then STAT_MOD_TYPE_SYMLINK
  else if t =? S_IFREG then STAT_MOD_TYPE_FILE
  else if t =? S_IFSOCK then STAT_MOD_TYPE_SOCKET
  else STAT_MOD_TYPE_UNKNOWN.

Definition StatGetModeTypeColor (st : struct_stat) : string :=
  let t := Z.land (st_mode st) S_IFMT in
  if t =? S_IFBLK then ANSI_COLOR_RED
  else if t =? S_IFCHR then ANSI_COLOR_RED
  else if t =? S_IFDIR then ANSI_COLOR_MAGENTA
  else if t =? S_IFIFO then ANSI_COLOR_RED
  else if t =? S_IFLNK then ANSI_COLOR_CYAN
  else if t =? S_IFREG then ANSI_COLOR_GREEN
  else if t =? S_IFSOCK then ANSI_COLOR_RED
  else ANSI_COLOR_GREEN.

(** ** The operating system and bflibc

    What the program calls and does not define.  [lstat] and [stat]
    answer [Err e] for a return of -1 with [errno] set to [e]; [readlink]
    and [scandir] answer [None] for -1; [BFByteGetString] gives its return
    value and the text it wrote.  [realpath] answers the resolved path, or
    [None] for a null return, which leaves the caller's buffer unwritten;
    [getpwuid] and [getgrgid] answer the name of the entry they find, or
    [None] for a null pointer. *)
Record OS : Type := mkOS {
  BFFileSystemPathIsFile : string -> bool;
  lstat : string -> result struct_stat;
  stat : string -> result struct_stat;
  readlink : string -> option string;
  scandir : string -> option (list dirent);
  BFByteGetString : Z -> int * string;
  basename : string -> string;
  realpath : string -> option string;
  getpwuid : Z -> option string;
  getgrgid : Z -> option string
}.

(** ** What the program writes *)

Inductive printf_arg : Type :=
| ArgS (s : string)
| ArgD (d : Z)
| ArgUndef.  (* a buffer read before anything was stored in it *)

(** A [printf] of a message or label, its format kept as the source
    spells it, or a call of one of the two presentation functions with
    the arguments it is given.  The brief one formats its arguments and
    nothing else; the detailed one also looks up the full path, the owner
    and the group, see [PathQueryPrintPathDetail_call]. *)
Inductive Output : Type :=
| Printf (format : string) (args : list printf_arg)
| PathQueryPrintPathBrief (path : string) (modetype : ascii) (m : Z)
    (modtime : Z) (sizebuf color linkdesc : string)
| PathQueryPrintPathDetail (path : string) (modetype : ascii) (m : Z)
    (modtime accesstime changetime : Z) (sizebuf color linkdesc : string)
    (owner group : Z).

Record Arguments : Type := mkArguments {
  paths : PathList;
  showhelp : bool;
  showversion : bool;
  recursive : bool;
  briefDescription : bool
}.

(** A loop whose body writes, over the elements of [l] in order.  The
    body is [None] where the behaviour of the program is undefined, and
    so is the loop from there on. *)
Fixpoint for_each {A : Type} (body : A -> option (list Output))
    (l : list A) : option (list Output) :=
  match l with
  | [] => Some []
  | x :: l' =>
      match body x with
      | None => None
      | Some out =>
          match for_each body l' with
          | None => None
          | Some rest => Some (out ++ rest)
          end
      end
  end.

(** ** Rendering and traversal, lines 510-539 and 643-813 *)

Section Traversal.
Variable PATH_MAX : nat.
Variable os : OS.

Definition GetPrintablePath (q : option PathQuery) (args : option Arguments)
  : list Output * result string :=
  match q with
  | None => ([], Err 1)
  | Some _ =>
      match PathQueryGetPath PATH_MAX q with
      | Err _ => ([Printf "error: couldn't get path\n" []], Err 1)
      | Ok buf =>
          if 0 <? PathQueryGetLevel q then
            ([], Ok (strncpy (basename os buf) PATH_MAX))
          else
            match RemoveLeadingPeriodAndForwardSlashes (Some buf) with
            | Err _ =>
                ([Printf ("error: couldn't remove \" +:+ DQUOTE +:+ "./\"
                            +:+ DQUOTE +:+ " from path '%s'\n")
                    [ArgS buf]], Err 1)
            | Ok buf => ([], Ok (strncpy buf PATH_MAX))
            end
      end
  end.

(** Lines 649-677: the metadata used for the entry at [path] and its
    link description, or the message and return value of the failing
    exit. *)
Definition PathQueryPrintPath_stat (path : string)
  : list Output * int + struct_stat * string :=
  match lstat os path with
  | Err e => inl ([Printf "error: (path: %s) lstat %d\n" [ArgS path; ArgD e]], 1)
  | Ok st =>
      if negb (S_ISLNK (st_mode st)) then
        match stat os path with
        | Err e => inl ([Printf "error: stat %d\n" [ArgD e]], 1)
        | Ok st => inr (st, EmptyString)
        end
      else
        let target :=
          match readlink os path with
          | None => "?"
          | Some target => string_take PATH_MAX target  (* sizeof(buf) *)
          end in
        inr (st, snprintf PATH_MAX (" -> " +:+ target))
  end.

(** Lines 586-641.  The call is entered with its arguments.  The names
    of the owner and of the group are read through the pointers that
    [getpwuid] and [getgrgid] return, null or not, and [fullpath] is
    printed whether or not [realpath] has stored a text in it, which no
    event stands for: the behaviour is undefined, [None], unless the three
    lookups answer. *)
Definition PathQueryPrintPathDetail_call (path : string) (modetype : ascii)
    (m modtime accesstime changetime : Z) (sizebuf color linkdesc : string)
    (owner group : Z) : option (list Output * int) :=
  match realpath os path with
  | None => None  (* printf of fullpath, which holds no text *)
  | Some fullpath =>
      match getpwuid os owner with
      | None => None  (* pws->pw_name through a null pointer *)
      | Some pw_name =>
          match getgrgid os group with
          | None => None  (* g->gr_name through a null pointer *)
          | Some gr_name =>
              Some ([PathQueryPrintPathDetail path modetype m modtime
                       accesstime changetime sizebuf color linkdesc
                       owner group], 0)
          end
      end
  end.

(** Lines 643-729.  [None] where the behaviour is undefined. *)
Definition PathQueryPrintPath (path : option PathQuery)
    (args : option Arguments) : option (list Output * int) :=
  match args, path with
  | Some a, Some q =>
      let path_text := written (PathQueryGetPath PATH_MAX path) in
      match PathQueryPrintPath_stat path_text with
      | inl failure => Some failure
      | inr (st, linkdesc) =>
          let size := st_size st mod 2 ^ 64 in  (* size_t, 64 bits *)
          let '(error, sizebuf) := BFByteGetString os size in
          if negb (error =? 0) then Some ([], error)
          else
            let m := Z.land (st_mode st) (Z.lor (Z.lor S_IRWXU S_IRWXG) S_IRWXO) in
            let modetype := StatGetModeType st in
            let color := StatGetModeTypeColor st in
            match GetPrintablePath path args with
            | (out, Err _) =>
                Some
                  (out ++ [Printf "error: couldn't get printable path\n" []], 1)
            | (out, Ok item) =>
                let shouldPrintInDetail :=
                  (PathListGetSize (Some (paths a)) =? 1)%nat
                  && (PathQueryGetLevel path =? 0) in
                if shouldPrintInDetail then
                  match
                    PathQueryPrintPathDetail_call item modetype m
                      (st_mtime st) (st_atime st) (st_ctime st)
                      sizebuf color linkdesc (st_uid st) (st_gid st)
                  with
                  | None => None
                  | Some (detail, code) => Some (out ++ detail, code)
                  end
                else
                  Some
                    (out ++ [PathQueryPrintPathBrief item modetype m
                               (st_mtime st) sizebuf color linkdesc], 0)
            end
      end
  | _, _ => Some ([], 0)  (* return false *)
  end.

(** The body of the loop over [namelist] for one entry. *)
Definition PathQueryPrintDir_entry (dir : PathQuery) (a : Arguments)
    (entry : dirent) : option (list Output) :=
  if negb (strcmp (d_name entry) "." =? 0)
     && negb (strcmp (d_name entry) ".." =? 0) then
    match PathQueryCreateChild PATH_MAX (Some dir) (Some (d_name entry)) with
    | Err _ =>
        Some [Printf "error: couldn't create path query for %s\n" [ArgUndef]]
    | Ok path =>
        if recursive a && (d_type entry =? DT_DIR) then Some []
        else
          match PathQueryPrintPath (Some path) (Some a) with
          | None => None
          | Some (out, err) =>
              if negb (err =? 0) then
                Some
                  (out
                   ++ [Printf "error: path couldn't be worked on %s\n"
                         [ArgUndef]])
              else Some out
          end
    end
  else Some [].

(** Lines 731-776. *)
Definition PathQueryPrintDir (dir : option PathQuery) (args : option Arguments)
  : option (list Output * int) :=
  match dir, args with
  | Some d, Some a =>
      let path_text := written (PathQueryGetPath PATH_MAX dir) in
      match scandir os path_text with
      | None =>
          Some ([Printf "error: couldn't scan dir %s\n" [ArgS path_text]], 1)
      | Some namelist =>
          let shouldLabel := (1 <? PathListGetSize (Some (paths a)))%nat in
          let label :=
            if shouldLabel then [Printf "\n%s:\n" [ArgS path_text]] else [] in
          match for_each (PathQueryPrintDir_entry d a) namelist with
          | None => None
          | Some out => Some (label ++ out, 0)
          end
      end
  | _, _ => Some ([], 1)
  end.

(** The body of the loop over the path list for index [i].
    [PathListGetPathAtIndex] copies the listed path whole, its
    terminator included, into [char currpath[PATH_MAX]]: a path of
    [PATH_MAX] bytes or more is written past the end of the array, and
    the behaviour is undefined. *)
Definition GetInfo_step (a : Arguments) (i : nat) : option (list Output) :=
  match PathListGetPathAtIndex (Some (paths a)) i with
  | Err _ => Some [Printf "error: couldn't get path at index\n" []]
  | Ok currpath =>
      if (PATH_MAX <=? String.length currpath)%nat then None
      else
        match PathQueryCreate PATH_MAX (Some currpath) with
        | Err _ => Some [Printf "error: couldn't create the path struct\n" []]
        | Ok path =>
            match
              if PathQueryIsFile (BFFileSystemPathIsFile os) (Some path) then
                PathQueryPrintPath (Some path) (Some a)
              else
                PathQueryPrintDir (Some path) (Some a)
            with
            | None => None
            | Some (out, err) =>
                if negb (err =? 0) then
                  Some
                    (out
                     ++ [Printf
                           "error: code - %d, path couldn't be worked on %s\n"
                           [ArgD err; ArgS currpath]])
                else Some out
            end
        end
  end.

(** Lines 778-813. *)
Definition GetInfo (args : option Arguments) : option (list Output * int) :=
  match args with
  | None => Some ([Printf "error: args param is empty\n" []], 1)
  | Some a =>
      match
        for_each (GetInfo_step a) (seq 0 (PathListGetSize (Some (paths a))))
      with
      | None => None
      | Some out => Some (out, 0)
      end
  end.
End Traversal.

(** ** Descriptions, lines 41-48, 468-479 and 564-584 *)

Definition STAT_MOD_TYPE_DESCRIPTION_BDEV : string := "Block Device".
Definition STAT_MOD_TYPE_DESCRIPTION_CDEV : string := "Character Device".
Definition STAT_MOD_TYPE_DESCRIPTION_DIR : string := "Directory".
Definition STAT_MOD_TYPE_DESCRIPTION_FIFO : string := "Fifo Pipe File".
Definition STAT_MOD_TYPE_DESCRIPTION_SYMLINK : string := "Symlink File".
Definition STAT_MOD_TYPE_DESCRIPTION_FILE : string := "Regular File".
Definition STAT_MOD_TYPE_DESCRIPTION_SOCKET : string := "Socket".
Definition STAT_MOD_TYPE_DESCRIPTION_UNKNOWN : string := "Unknown".

Definition StatModeTypeGetStringDescription (modtype : ascii) : string :=
  if Ascii.eqb modtype STAT_MOD_TYPE_BDEV then STAT_MOD_TYPE_DESCRIPTION_BDEV
  else if Ascii.eqb modtype STAT_MOD_TYPE_CDEV then STAT_MOD_TYPE_DESCRIPTION_CDEV
  else if Ascii.eqb modtype STAT_MOD_TYPE_DIR then STAT_MOD_TYPE_DESCRIPTION_DIR
  else if Ascii.eqb modtype STAT_MOD_TYPE_FIFO then STAT_MOD_TYPE_DESCRIPTION_FIFO
  else if Ascii.eqb modtype STAT_MOD_TYPE_SYMLINK then
    STAT_MOD_TYPE_DESCRIPTION_SYMLINK
  else if Ascii.eqb modtype STAT_MOD_TYPE_FILE then STAT_MOD_TYPE_DESCRIPTION_FILE
  else if Ascii.eqb modtype STAT_MOD_TYPE_SOCKET then
    STAT_MOD_TYPE_DESCRIPTION_SOCKET
  else STAT_MOD_TYPE_DESCRIPTION_UNKNOWN.

(** [strcat(buf, s)] into a buffer of [bufsize] bytes: [None] when the
    text and its terminator do not fit, where [strcat] writes past the
    buffer. *)
Definition strcat (bufsize : nat) (buf s : string) : option string :=
  if (String.length (buf +:+ s) <? bufsize)%nat then Some (buf +:+ s) else None.

(** The words of [arr], by index. *)
Definition PermissionsGetStringDescription_arr : list string :=
  ["Executable"; "Writable"; "Readable"].

(** The text left in [buf] on return (the return value is then 0), or
    [None] when a [strcat] overflows [buf], or when [bufsize] is 0 and
    [memset] clears nothing of [buf]. *)
Definition PermissionsGetStringDescription (permissions : Z) (bufsize : nat)
  : option string :=
  if (bufsize =? 0)%nat then None else
  for_loop (length PermissionsGetStringDescription_arr) 0
    (fun i buf =>
       match buf with
       | None => None
       | Some buf =>
           if negb (Z.land permissions (Z.shiftl 1 (Z.of_nat i)) =? 0) then
             match
               (if negb (String.length buf =? 0)%nat
                then strcat bufsize buf ", " else Some buf)
             with
             | None => None
             | Some buf =>
                 strcat bufsize buf (PermissionsGetStringDescription_arr !!! i)
             end
           else Some buf
       end)
    (Some EmptyString).

(** Lines 628-638 of [PathQueryPrintPathDetail]: the permission lines,
    with [res] of [2 << 8] bytes. *)
Definition PathQueryPrintPathDetail_permissions (m : Z) : option (list Output) :=
  match
    PermissionsGetStringDescription (Z.shiftr (Z.land m S_IRWXU) (3 * 2)) 512,
    PermissionsGetStringDescription (Z.shiftr (Z.land m S_IRWXG) (3 * 1)) 512,
    PermissionsGetStringDescription (Z.shiftr (Z.land m S_IRWXO) (3 * 0)) 512
  with
  | Some owner, Some group, Some other =>
      Some [Printf "Permissions:\n" [];
            Printf "  Owner: %s\n" [ArgS owner];
            Printf "  Group: %s\n" [ArgS group];
            Printf "  Other: %s\n" [ArgS other]]
  | _, _, _ => None
  end.

(** ** Command line, lines 25-30, 107-168, 295-313 and 342-453 *)

Definition ARG_FLAG_RECURSIVE : ascii := "r".
Definition ARG_FLAG_HELP : ascii := "h".
Definition ARG_FLAG_VERSION : ascii := "v".
Definition ARG_BRIEF_DESCRIPTION : string := "--brief-description".

Definition set_paths (a : Arguments) (ps : PathList) : Arguments :=
  {| paths := ps; showhelp := showhelp a; showversion := showversion a;
     recursive := recursive a; briefDescription := briefDescription a |}.

Definition set_showhelp (a : Arguments) : Arguments :=
  {| paths := paths a; showhelp := true; showversion := showversion a;
     recursive := recursive a; briefDescription := briefDescription a |}.

Definition set_showversion (a : Arguments) : Arguments :=
  {| paths := paths a; showhelp := showhelp a; showversion := true;
     recursive := recursive a; briefDescription := briefDescription a |}.

Definition set_recursive (a : Arguments) : Arguments :=
  {| paths := paths a; showhelp := showhelp a; showversion := showversion a;
     recursive := true; briefDescription := briefDescription a |}.

Definition set_briefDescription (a : Arguments) : Arguments :=
  {| paths := paths a; showhelp := showhelp a; showversion := showversion a;
     recursive := recursive a; briefDescription := true |}.





(** One iteration of the loop over the bytes of [arg].  The state is the
    object [args] points to, [Some None] for a null [args], or [None] once
    a flag has been stored through a null [args]. *)
Definition ArgumentsReadFlagsFromArg_body (arg : string) (i : nat)
    (args : option (option Arguments)) : option (option Arguments) :=
  match args with
  | None => None
  | Some args =>
      match String.get i arg with
      | None => Some args
      | Some c =>
          if Ascii.eqb c ARG_FLAG_RECURSIVE then
            match args with None => None | Some a => Some (Some (set_recursive a)) end
          else if Ascii.eqb c ARG_FLAG_HELP then
            match args with None => None | Some a => Some (Some (set_showhelp a)) end
          else if Ascii.eqb c ARG_FLAG_VERSION then
            match args with None => None | Some a => Some (Some (set_showversion a)) end
          else Some args
      end
  end.

(** What is written, the return value and the object [args] points to on
    return; [None] when the call dereferences a null pointer: the guard
    rejects only the case where both pointers are null. *)
Definition ArgumentsReadFlagsFromArg (arg : option string)
    (args : option Arguments) : option (list Output * int * option Arguments) :=
  match arg, args with
  | None, None => Some ([Printf "error: param error\n" []], 1, None)
  | None, Some _ => None  (* strlen(NULL) *)
  | Some arg, _ =>
      match
        for_loop (String.length arg) 0 (ArgumentsReadFlagsFromArg_body arg)
          (Some args)
      with
      | None => None
      | Some args => Some ([], 0, args)
      end
  end.


(** [array] is the pair [( *arrayptr, *size)], whose addresses are those
    of the fields of a path list.  [mem] tells whether [realloc] and then
    [BFStringCopyString], which returns a copy of [path], answer a block.
    A failing exit leaves the count one above the elements of the array;
    that state is not a list and is not returned. *)
Definition AddPathToArray (array : list string) (path : option string)
    (mem : bool * bool) : list Output * result (list string) :=
  match path with
  | None => ([], Err 1)
  | Some path =>
      let size := S (length array) in
      if negb (fst mem) then
        ([Printf "error: couldn't allocate more space for path array (size %ld)\n"
            [ArgD (Z.of_nat size)]], Err 1)
      else if negb (snd mem) then
        ([Printf "error: couldn't allocate memory for string %s\n" [ArgS path]],
         Err 1)
      else ([], Ok (array ++ [path]))
  end.

Definition PathListAddPath (isFile : string -> bool) (paths : option PathList)
    (path : option string) (mem : bool * bool)
  : list Output * result PathList :=
  match paths, path with
  | Some ps, Some text =>
      if isFile text then
        match AddPathToArray (arrayfile ps) path mem with
        | (out, Ok array) => (out, Ok (mkPathList array (arraydir ps)))
        | (out, Err code) => (out, Err code)
        end
      else
        match AddPathToArray (arraydir ps) path mem with
        | (out, Ok array) => (out, Ok (mkPathList (arrayfile ps) array))
        | (out, Err code) => (out, Err code)
        end
  | _, _ => ([Printf "error: param error\n" []], Err 1)
  end.

(** An array pointer is null until the first element is added, and
    elements are never removed: the test of the pointer is the test that
    the list has an element.  (On an array without elements [ArraySort]
    returns 0 and changes nothing.) *)
Definition array_pointer (array : list string) : option (list string) :=
  match array with
  | [] => None
  | _ => Some array
  end.

(** [ArraySort] applied in a condition: its return value and the array
    afterwards; 0 when the pointer is null and the call is not made. *)
Definition PathListSort_array (array : list string) : int * list string :=
  match array_pointer array with
  | None => (0, array)
  | Some _ =>
      match ArraySort (Some array) (length array) with
      | Ok sorted => (0, sorted)
      | Err code => (code, array)
      end
  end.

Definition PathListSort (paths : option PathList)
  : list Output * result PathList :=
  match paths with
  | None => ([], Err 1)
  | Some ps =>
      let '(code, files) := PathListSort_array (arrayfile ps) in
      if negb (code =? 0) then
        ([Printf "error: failed to sort file array\n" []], Err 1)
      else
        let '(code, dirs) := PathListSort_array (arraydir ps) in
        if negb (code =? 0) then
          ([Printf "error: failed to sort dir array\n" []], Err 1)
        else ([], Ok (mkPathList files dirs))
  end.

Section CommandLine.
Variable PATH_MAX : nat.
Variable os : OS.

(** The answers of the allocator during the call of [PathListAddPath] for
    [argv[i]]; at 0, during the call for the default path. *)
Variable mem : nat -> bool * bool.

(** One iteration of the loop over [argv].  The state is what has
    been written and the object [args] points to, or the return value
    once the function has returned; [None] as for
    [ArgumentsReadFlagsFromArg]. *)
Definition ArgumentsRead_body (argv : list string) (i : nat)
    (st : option (list Output * result Arguments))
  : option (list Output * result Arguments) :=
  match st with
  | Some (out, Ok a) =>
      let arg := argv !!! i in
      if strcmp arg ARG_BRIEF_DESCRIPTION =? 0 then
        Some (out, Ok (set_briefDescription a))
      else if (i =? 1)%nat
              && match String.get 0 arg with
                 | Some "-"%char => true
                 | _ => false
                 end then
        match ArgumentsReadFlagsFromArg (Some arg) (Some a) with
        | Some (out', code, Some a') =>
            if negb (code =? 0) then
              Some (out ++ out'
                    ++ [Printf "error: couldn't read flags provided %s\n"
                          [ArgS arg]], Err 1)
            else Some (out ++ out', Ok a')
        | _ => None
        end
      else
        match
          PathListAddPath (BFFileSystemPathIsFile os) (Some (paths a))
            (Some arg) (mem i)
        with
        | (out', Err _) =>
            Some (out ++ out' ++ [Printf "error: couldn't add path %s\n" [ArgS arg]],
                  Err 1)
        | (out', Ok ps) => Some (out ++ out', Ok (set_paths a ps))
        end
  | _ => st
  end.

(** [argc] is the length of [argv]. *)
Definition ArgumentsRead (argv : option (list string)) (args : option Arguments)
  : option (list Output * result Arguments) :=
  match args, argv with
  | Some a, Some argv =>
      match
        for_loop (length argv - 1) 1 (ArgumentsRead_body argv) (Some ([], Ok a))
      with
      | Some (out, Ok a) =>
          let '(out, r) :=
            if (PathListGetSize (Some (paths a)) =? 0)%nat then
              match
                PathListAddPath (BFFileSystemPathIsFile os) (Some (paths a))
                  (Some ".") (mem 0)
              with
              | (out', Err _) =>
                  (out ++ out'
                   ++ [Printf "error: couldn't add current directory path\n" []],
                   Err 1)
              | (out', Ok ps) => (out ++ out', Ok (set_paths a ps))
              end
            else (out, Ok a) in
          match r with
          | Err code => Some (out, Err code)
          | Ok a =>
              match PathListSort (Some (paths a)) with
              | (out', Err code) => Some (out ++ out', Err code)
              | (out', Ok ps) => Some (out ++ out', Ok (set_paths a ps))
              end
          end
      | st => st
      end
  | _, _ => Some ([Printf "error: params empty\n" []], Err 1)
  end.

End CommandLine.

(** ** Vocabulary of the statements *)

(** [k] forward slashes. *)
Fixpoint slashes (k : nat) : string :=
  match k with
  | O => EmptyString
  | S k' => String "/" (slashes k')
  end.

(** The last byte of [s] is a forward slash. *)
Definition ends_with_slash (s : string) : Prop :=
  String.get (String.length s - 1) s = Some "/"%char.

(** The segments of a node and of its ancestors, root first. *)
Fixpoint segments (q : PathQuery) : list string :=
  match parent q with
  | Some q' => segments q' ++ [p q]
  | None => [p q]
  end.

(** Every segment followed by a separator. *)
Fixpoint join_segments (l : list string) : string :=
  match l with
  | [] => EmptyString
  | s :: l' => s +:+ "/" +:+ join_segments l'
  end.

(** The node at the top of the parent chain. *)
Fixpoint root_of (q : PathQuery) : PathQuery :=
  match parent q with
  | Some q' => root_of q'
  | None => q
  end.

(** [a <= b] in the order of [strcmp]. *)
Definition str_le (a b : string) : Prop := strcmp a b <= 0.

(** Every adjacent pair of the array is in order. *)
Definition adjacent_sorted (array : list string) : Prop :=
  forall (k : nat) (a b : string),
    array !! k = Some a -> array !! S k = Some b -> str_le a b.

(** The two presentations. *)
Definition is_detail (e : Output) : bool :=
  match e with
  | PathQueryPrintPathDetail _ _ _ _ _ _ _ _ _ _ _ => true
  | _ => false
  end.

Definition is_brief (e : Output) : bool :=
  match e with
  | PathQueryPrintPathBrief _ _ _ _ _ _ _ => true
  | _ => false
  end.

(** The permission bits of a mode. *)
Definition permission_bits (m : Z) : Z :=
  Z.land m (Z.lor (Z.lor S_IRWXU S_IRWXG) S_IRWXO).

(** The presentation of an entry from the metadata [st]. *)
Definition rendering (detail : bool) (item : string) (st : struct_stat)
    (sizebuf linkdesc : string) : Output :=
  if detail then
    PathQueryPrintPathDetail item (StatGetModeType st)
      (permission_bits (st_mode st)) (st_mtime st) (st_atime st) (st_ctime st)
      sizebuf (StatGetModeTypeColor st) linkdesc (st_uid st) (st_gid st)
  else
    PathQueryPrintPathBrief item (StatGetModeType st)
      (permission_bits (st_mode st)) (st_mtime st)
      sizebuf (StatGetModeTypeColor st) linkdesc.

(** [r] has the permission bits, the size and the three timestamps of
    [st]. *)
Definition same_attributes (r st : struct_stat) : Prop :=
  permission_bits (st_mode r) = permission_bits (st_mode st)
  /\ st_size r = st_size st
  /\ st_mtime r = st_mtime st
  /\ st_atime r = st_atime st
  /\ st_ctime r = st_ctime st.

(** The elements before [i] are in order and none is above an element
    that follows it in the first [size]. *)
Definition sorted_upto (size i : nat) (array : list string) : Prop :=
  forall a b : nat,
    (a < i)%nat -> (a <= b < size)%nat -> str_le (array !!! a) (array !!! b).

(** [os] with another answer to the follow-symlink fetch. *)
Definition with_stat (os : OS) (f : string -> result struct_stat) : OS :=
  {| BFFileSystemPathIsFile := BFFileSystemPathIsFile os;
     lstat := lstat os;
     stat := f;
     readlink := readlink os;
     scandir := scandir os;
     BFByteGetString := BFByteGetString os;
     basename := basename os;
     realpath := realpath os;
     getpwuid := getpwuid os;
     getgrgid := getgrgid os |}.

(** The three lookups of the detailed presentation of [item], whose
    metadata is [st], answer. *)
Definition lookups_answer (os : OS) (item : string) (st : struct_stat)
  : bool :=
  match realpath os item, getpwuid os (st_uid st), getgrgid os (st_gid st) with
  | Some _, Some _, Some _ => true
  | _, _, _ => false
  end.

(** What a call of [PathQueryPrintPath] that reaches its presentation
    gives: the one presentation and 0, unless the presentation is the
    detailed one and a lookup of it does not answer. *)
Definition presented (os : OS) (detail : bool) (item : string)
    (st : struct_stat) (sizebuf linkdesc : string)
  : option (list Output * int) :=
  if detail && negb (lookups_answer os item st) then None
  else Some ([rendering detail item st sizebuf linkdesc], 0).

(** ** An example file system

    A directory ["dir"] with two regular files; a symlink ["link"] to a
    regular file, with mode 0120777, 4 bytes and timestamps 1, 2, 3, whose
    target has mode 0100644, 100 bytes and timestamps 10, 20, 30; and a
    symlink ["dangling"] whose target cannot be read or followed.  The
    users 0 and 1000 and the groups 0 and 1000 have entries; every path
    but ["dangling"] resolves. *)
Definition example_link : struct_stat := mkStat 41471 4 1 2 3 1000 1000.
Definition example_target : struct_stat := mkStat 33188 100 10 20 30 0 0.
Definition example_dir : struct_stat := mkStat 16877 4096 7 8 9 0 0.

(** The text after the last slash. *)
Fixpoint last_component (s acc : string) : string :=
  match s with
  | EmptyString => acc
  | String c s' =>
      if Ascii.eqb c "/" then last_component s' EmptyString
      else last_component s' (acc +:+ String c EmptyString)
  end.

Definition example_os : OS :=
  {| BFFileSystemPathIsFile := fun path => negb (String.eqb path "dir");
     lstat := fun path =>
       if String.eqb path "link" then Ok example_link
       else if String.eqb path "dangling" then Ok example_link
       else if String.eqb path "dir" then Ok example_dir
       else Ok example_target;
     stat := fun path =>
       if String.eqb path "dangling" then Err 2
       else if String.eqb path "dir" then Ok example_dir
       else Ok example_target;
     readlink := fun path =>
       if String.eqb path "link" then Some "target" else None;
     scandir := fun path =>
       if String.eqb path "dir" then
         Some [mkDirent "." 4; mkDirent ".." 4; mkDirent "a.txt" 8;
               mkDirent "b.txt" 8]
       else None;
     BFByteGetString := fun size =>
       (0, if size =? 4 then "4 b" else if size =? 100 then "100 b" else "4 kb");
     basename := fun path => last_component path EmptyString;
     realpath := fun path =>
       if String.eqb path "dangling" then None else Some ("/home/" +:+ path);
     getpwuid := fun uid =>
       if uid =? 0 then Some "root"
       else if uid =? 1000 then Some "user" else None;
     getgrgid := fun gid =>
       if gid =? 0 then Some "root"
       else if gid =? 1000 then Some "users" else None |}.

Definition example_arguments (files dirs : list string) : Arguments :=
  {| paths := mkPathList files dirs;
     showhelp := false; showversion := false; recursive := false;
     briefDescription := false |}.

(** ** Vocabulary of the further statements *)

(** A segment as the constructors leave it: it does not end in a slash,
    unless it is the root ["/"]. *)
Definition normal_segment (s : string) : Prop :=
  ~ ends_with_slash s \/ s = "/".

(** The nodes that [PathQueryCreate] and [PathQueryCreateChild] make. *)
Inductive built (PATH_MAX : nat) : PathQuery -> Prop :=
| built_root (path : string) (root : PathQuery) :
    PathQueryCreate PATH_MAX (Some path) = Ok root -> built PATH_MAX root
| built_child (q : PathQuery) (leaf : string) (c : PathQuery) :
    built PATH_MAX q ->
    PathQueryCreateChild PATH_MAX (Some q) (Some leaf) = Ok c ->
    built PATH_MAX c.

(** The entries of a directory that a listing works on: all but ["."]
    and [".."] and, with the recursive flag, all but those of type
    [DT_DIR]. *)
Definition listed (a : Arguments) (entry : dirent) : bool :=
  negb (String.eqb (d_name entry) ".")
  && negb (String.eqb (d_name entry) "..")
  && negb (recursive a && (d_type entry =? DT_DIR)).

(** The lookups of the detailed presentation of the root made from
    [currpath] answer. *)
Definition detail_lookups_answer (PATH_MAX : nat) (os : OS) (a : Arguments)
    (currpath : string) : Prop :=
  forall (root : PathQuery) (item : string) (st : struct_stat)
    (linkdesc : string),
    PathQueryCreate PATH_MAX (Some currpath) = Ok root ->
    GetPrintablePath PATH_MAX os (Some root) (Some a) = ([], Ok item) ->
    PathQueryPrintPath_stat PATH_MAX os
      (written (PathQueryGetPath PATH_MAX (Some root))) = inr (st, linkdesc) ->
    lookups_answer os item st = true.


(** The words for the permission bits 0, 1 and 2 that are set, and a
    list of words separated by a comma and a space. *)
Definition permission_words (permissions : Z) : list string :=
  (if Z.testbit permissions 0 then ["Executable"] else [])
  ++ (if Z.testbit permissions 1 then ["Writable"] else [])
  ++ (if Z.testbit permissions 2 then ["Readable"] else []).

Fixpoint join_comma (words : list string) : string :=
  match words with
  | [] => EmptyString
  | [w] => w
  | w :: rest => w +:+ ", " +:+ join_comma rest
  end.

(** The colour of each type tag. *)
Definition color_of_type (modetype : ascii) : string :=
  if Ascii.eqb modetype STAT_MOD_TYPE_DIR then ANSI_COLOR_MAGENTA
  else if Ascii.eqb modetype STAT_MOD_TYPE_SYMLINK then ANSI_COLOR_CYAN
  else if Ascii.eqb modetype STAT_MOD_TYPE_FILE
          || Ascii.eqb modetype STAT_MOD_TYPE_UNKNOWN then ANSI_COLOR_GREEN
  else ANSI_COLOR_RED.

(** [c] occurs in [s]. *)
Fixpoint string_has (c : ascii) (s : string) : bool :=
  match s with
  | EmptyString => false
  | String d s' => Ascii.eqb c d || string_has c s'
  end.

(** The flags of [a] with those that the letters of [letters] set. *)
Definition with_flags (a : Arguments) (letters : string) : Arguments :=
  {| paths := paths a;
     showhelp := showhelp a || string_has ARG_FLAG_HELP letters;
     showversion := showversion a || string_has ARG_FLAG_VERSION letters;
     recursive := recursive a || string_has ARG_FLAG_RECURSIVE letters;
     briefDescription := briefDescription a |}.

(** The roles of the argument at index [i] of [argv]: the description
    request wherever it stands; the flags when it stands at index 1 and
    begins with a dash; a path otherwise. *)
Definition starts_with_dash (arg : string) : bool :=
  match String.get 0 arg with
  | Some "-"%char => true
  | _ => false
  end.

Definition is_brief_arg (arg : string) : bool :=
  String.eqb arg ARG_BRIEF_DESCRIPTION.

Definition is_flags_arg (i : nat) (arg : string) : bool :=
  negb (is_brief_arg arg) && ((i =? 1)%nat && starts_with_dash arg).

Definition is_path_arg (i : nat) (arg : string) : bool :=
  negb (is_brief_arg arg) && negb ((i =? 1)%nat && starts_with_dash arg).

(** The paths, and the flag letters, among the arguments [rest] that
    stand at index [i] and after. *)
Fixpoint path_arguments (i : nat) (rest : list string) : list string :=
  match rest with
  | [] => []
  | arg :: rest' =>
      (if is_path_arg i arg then [arg] else []) ++ path_arguments (S i) rest'
  end.

Fixpoint flag_letters (i : nat) (rest : list string) : string :=
  match rest with
  | [] => EmptyString
  | arg :: rest' =>
      (if is_flags_arg i arg then arg else EmptyString)
      +:+ flag_letters (S i) rest'
  end.

(** The object [args] points to once the arguments [rest], which stand
    at index [i] and after, are read into [a]. *)
Definition read_arguments (isFile : string -> bool) (i : nat)
    (rest : list string) (a : Arguments) : Arguments :=
  {| paths :=
       {| arrayfile :=
            arrayfile (paths a) ++ List.filter isFile (path_arguments i rest);
          arraydir :=
            arraydir (paths a)
            ++ List.filter (fun s => negb (isFile s)) (path_arguments i rest) |};
     showhelp := showhelp a || string_has ARG_FLAG_HELP (flag_letters i rest);
     showversion :=
       showversion a || string_has ARG_FLAG_VERSION (flag_letters i rest);
     recursive :=
       recursive a || string_has ARG_FLAG_RECURSIVE (flag_letters i rest);
     briefDescription := briefDescription a || existsb is_brief_arg rest |}.

(** The paths that are listed: those of the command line, or the
    current directory when it has none. *)
Definition queried_paths (argv : list string) : list string :=
  match path_arguments 1 (tail argv) with
  | [] => ["."]
  | l => l
  end.

(** The arguments as [main] has them once [ArgumentsRead] has
    returned 0. *)
Definition arguments_of (isFile : string -> bool) (argv : list string)
  : Arguments :=
  let files := List.filter isFile (queried_paths argv) in
  let dirs := List.filter (fun s => negb (isFile s)) (queried_paths argv) in
  {| paths := {| arrayfile := ArraySort_loop files (length files);
                 arraydir := ArraySort_loop dirs (length dirs) |};
     showhelp := string_has ARG_FLAG_HELP (flag_letters 1 (tail argv));
     showversion := string_has ARG_FLAG_VERSION (flag_letters 1 (tail argv));
     recursive := string_has ARG_FLAG_RECURSIVE (flag_letters 1 (tail argv));
     briefDescription := existsb is_brief_arg (tail argv) |}.

(** * Proofs *)

(** ** Strings *)

Lemma string_app_cons (c : ascii) (a b : string) :
  String c a +:+ b = String c (a +:+ b).
Proof. reflexivity. Qed.

Lemma string_app_nil (b : string) : EmptyString +:+ b = b.
Proof. reflexivity. Qed.

Ltac string_simpl := rewrite ?string_app_cons, ?string_app_nil; simpl.

Lemma string_length_app (a b : string) :
  String.length (a +:+ b) = (String.length a + String.length b)%nat.
Proof. induction a as [|c a IH]; string_simpl; [reflexivity | now rewrite IH]. Qed.

Lemma string_app_assoc (a b c : string) : (a +:+ b) +:+ c = a +:+ (b +:+ c).
Proof. induction a as [|x a IH]; string_simpl; [reflexivity | now rewrite IH]. Qed.

Lemma string_app_empty_r (a : string) : a +:+ EmptyString = a.
Proof. induction a as [|x a IH]; string_simpl; [reflexivity | now rewrite IH]. Qed.

Lemma string_take_all (n : nat) (s : string) :
  (String.length s <= n)%nat -> string_take n s = s.
Proof.
  revert n; induction s as [|c s IH]; intros [|n] H; simpl in *;
    try reflexivity; try lia.
  now rewrite IH by lia.
Qed.

Lemma string_take_length (n : nat) (s : string) :
  (String.length (string_take n s) <= String.length s)%nat.
Proof.
  revert n; induction s as [|c s IH]; intros [|n]; simpl; try lia.
  specialize (IH n); lia.
Qed.

Lemma string_take_app (a b : string) (j : nat) :
  string_take (String.length a + j) (a +:+ b) = a +:+ string_take j b.
Proof. induction a as [|c a IH]; string_simpl; [reflexivity | now rewrite IH]. Qed.

Lemma string_get_app_r (a b : string) (j : nat) :
  String.get (String.length a + j) (a +:+ b) = String.get j b.
Proof. induction a as [|c a IH]; string_simpl; [reflexivity | exact IH]. Qed.

Lemma string_take_slashes (k : nat) : string_take k (slashes (S k)) = slashes k.
Proof. induction k as [|k IH]; [reflexivity|]. simpl in *. now rewrite IH. Qed.

Lemma string_get_slashes (k : nat) : String.get k (slashes (S k)) = Some "/"%char.
Proof. induction k as [|k IH]; [reflexivity | exact IH]. Qed.

Lemma string_length_slashes (k : nat) : String.length (slashes k) = k.
Proof. induction k as [|k IH]; simpl; [reflexivity | now rewrite IH]. Qed.

Lemma strncpy_fits (s : string) (n : nat) :
  (String.length s < n)%nat -> strncpy s n = s.
Proof. intros H; apply string_take_all; lia. Qed.

Lemma snprintf_fits (s : string) (n : nat) :
  (String.length s < n)%nat -> snprintf n s = s.
Proof. intros H; apply string_take_all; lia. Qed.

(** ** Trailing slashes *)

(** The loop consumes the slashes appended to a non-empty text, one per
    iteration, and goes on from the last byte of that text. *)
Lemma RemoveTrailingForwardSlashes_loop_app (s : string) (k : nat) :
  s <> EmptyString ->
  RemoveTrailingForwardSlashes_loop (s +:+ slashes k) (String.length s + k - 1)
  = RemoveTrailingForwardSlashes_loop s (String.length s - 1).
Proof.
  intros Hs.
  assert (Hlen : (1 <= String.length s)%nat) by (destruct s; simpl; [congruence | lia]).
  induction k as [|k IH].
  - now rewrite string_app_empty_r, Nat.add_0_r.
  - replace (String.length s + S k - 1)%nat with (S (String.length s + k - 1)) by lia.
    cbn [RemoveTrailingForwardSlashes_loop].
    replace (S (String.length s + k - 1)) with (String.length s + k)%nat by lia.
    rewrite string_get_app_r, string_get_slashes.
    rewrite string_take_app, string_take_slashes.
    exact IH.
Qed.

Lemma RemoveTrailingForwardSlashes_loop_stop (s : string) :
  ~ ends_with_slash s ->
  RemoveTrailingForwardSlashes_loop s (String.length s - 1) = s.
Proof.
  unfold ends_with_slash. intros H.
  destruct (String.length s - 1)%nat as [|i] eqn:E; [reflexivity|].
  cbn [RemoveTrailingForwardSlashes_loop].
  destruct (String.get (S i) s) as [c|] eqn:G; [|reflexivity].
  destruct c as [[] [] [] [] [] [] [] []]; try reflexivity.
  now contradiction H.
Qed.

Lemma RemoveTrailingForwardSlashes_loop_length (buf : string) (i : nat) :
  (String.length (RemoveTrailingForwardSlashes_loop buf i) <= String.length buf)%nat.
Proof.
  revert buf; induction i as [|i IH]; intros buf; [simpl; lia|].
  cbn [RemoveTrailingForwardSlashes_loop].
  destruct (String.get (S i) buf) as [c|]; [|lia].
  destruct c as [[] [] [] [] [] [] [] []]; try lia.
  specialize (IH (string_take (S i) buf)).
  pose proof (string_take_length (S i) buf). lia.
Qed.

Lemma ends_with_slash_cons (c d : ascii) (t : string) :
  ends_with_slash (String c (String d t)) <-> ends_with_slash (String d t).
Proof.
  unfold ends_with_slash. simpl. rewrite Nat.sub_0_r. reflexivity.
Qed.

(** Every text that ends in a slash is the root followed by slashes, or
    a non-empty text that does not end in a slash followed by one slash
    or more. *)
Lemma ends_with_slash_split (t : string) :
  ends_with_slash t ->
  (exists k, t = "/" +:+ slashes k) \/
  (exists s k, t = s +:+ slashes (S k) /\ s <> EmptyString /\ ~ ends_with_slash s).
Proof.
  induction t as [|c t IH]; [discriminate|].
  destruct t as [|d t].
  - unfold ends_with_slash. simpl. intros [= ->]. left. now exists 0%nat.
  - intros H. apply ends_with_slash_cons in H.
    destruct (IH H) as [[k Hk] | (s & k & Hk & Hs & He)].
    + destruct (Ascii.ascii_dec c "/") as [-> | Hc].
      * left. exists (S k). now rewrite Hk.
      * right. exists (String c EmptyString), k. rewrite Hk.
        repeat split; [discriminate|]. unfold ends_with_slash. simpl. congruence.
    + right. exists (String c s), k. rewrite Hk.
      repeat split; [discriminate|].
      destruct s as [|e s]; [congruence|].
      now rewrite ends_with_slash_cons.
Qed.

(** C6.  Trailing-slash stripping removes every
    trailing slash of a text that ends in one or more slashes and is not
    made of slashes only: the result [s] does not end in a slash and the
    text is [s] followed by slashes.  The loop never clears index 0, so
    the root ["/"] followed by any number of slashes is stripped to
    ["/"]. *)
Theorem RemoveTrailingForwardSlashes_strips :
  (forall t : string,
     ends_with_slash t -> (forall k, t <> "/" +:+ slashes k) ->
     exists s, RemoveTrailingForwardSlashes (Some t) = Ok s
               /\ ~ ends_with_slash s
               /\ exists k, t = s +:+ slashes (S k)) /\
  (forall k : nat,
     RemoveTrailingForwardSlashes (Some ("/" +:+ slashes k)) = Ok "/").
Proof.
  split.
  - intros t Ht Hroot.
    destruct (ends_with_slash_split t Ht) as [[k Hk] | (s & k & -> & Hs & He)].
    { now contradiction (Hroot k). }
    exists s. split; [|split; [assumption | now exists k]].
    unfold RemoveTrailingForwardSlashes.
    rewrite string_length_app, string_length_slashes.
    rewrite RemoveTrailingForwardSlashes_loop_app by assumption.
    now rewrite RemoveTrailingForwardSlashes_loop_stop.
  - intros k. unfold RemoveTrailingForwardSlashes.
    rewrite string_length_app, string_length_slashes.
    rewrite RemoveTrailingForwardSlashes_loop_app by discriminate.
    reflexivity.
Qed.

Lemma RemoveTrailingForwardSlashes_strips_witness :
  ends_with_slash "/hello/world//"
  /\ (exists s, RemoveTrailingForwardSlashes (Some "/hello/world//") = Ok s
                /\ ~ ends_with_slash s
                /\ exists k, "/hello/world//" = s +:+ slashes (S k))
  /\ RemoveTrailingForwardSlashes (Some "///") = Ok "/".
Proof.
  split; [reflexivity | split].
  - apply (proj1 RemoveTrailingForwardSlashes_strips "/hello/world//").
    + reflexivity.
    + intros [|[|k]]; discriminate.
  - apply (proj2 RemoveTrailingForwardSlashes_strips 2%nat).
Defined.

(** ** Leading period and slash *)

Lemma RemoveLeadingPeriodAndForwardSlashes_strip (rest : string) :
  RemoveLeadingPeriodAndForwardSlashes (Some ("./" +:+ rest)) = Ok rest.
Proof. reflexivity. Qed.

Lemma RemoveLeadingPeriodAndForwardSlashes_cases (buf : string) :
  (exists rest, buf = "./" +:+ rest) \/
  RemoveLeadingPeriodAndForwardSlashes (Some buf) = Ok buf.
Proof.
  destruct buf as [|c1 [|c2 rest]]; [now right | |].
  - right. destruct c1 as [[] [] [] [] [] [] [] []]; reflexivity.
  - destruct c1 as [[] [] [] [] [] [] [] []]; try (right; reflexivity).
    destruct c2 as [[] [] [] [] [] [] [] []]; try (right; reflexivity).
    left. now exists rest.
Qed.

Lemma dot_slash_longer (s : string) : s <> "./" +:+ s.
Proof.
  intros H. apply (f_equal String.length) in H.
  rewrite string_length_app in H. simpl in H. lia.
Qed.

(** C7, as the code has it.  Stripping ["./a/b"] yields ["a/b"].  One
    application removes one leading ["./"]: applying the operation twice
    gives the result of applying it once exactly for the texts that do
    not begin with ["././"]. *)
Theorem RemoveLeadingPeriodAndForwardSlashes_once :
  RemoveLeadingPeriodAndForwardSlashes (Some "./a/b") = Ok "a/b" /\
  forall buf : string, exists r r',
    RemoveLeadingPeriodAndForwardSlashes (Some buf) = Ok r
    /\ RemoveLeadingPeriodAndForwardSlashes (Some r) = Ok r'
    /\ (r' = r <-> forall rest, buf <> "././" +:+ rest).
Proof.
  split; [reflexivity|].
  intros buf.
  destruct (RemoveLeadingPeriodAndForwardSlashes_cases buf) as [[rest ->] | Hb].
  - exists rest. rewrite RemoveLeadingPeriodAndForwardSlashes_strip.
    destruct (RemoveLeadingPeriodAndForwardSlashes_cases rest) as [[rest' ->] | Hr].
    + exists rest'. rewrite RemoveLeadingPeriodAndForwardSlashes_strip.
      repeat split; try reflexivity.
      * intros H. now contradiction (dot_slash_longer rest').
      * intros H. now contradiction (H rest').
    + exists rest. repeat split; try assumption; try reflexivity.
      intros _ rest0 Heq.
      change ("././" +:+ rest0) with ("./" +:+ ("./" +:+ rest0)) in Heq.
      apply (inj (String.app "./")) in Heq. subst rest.
      rewrite RemoveLeadingPeriodAndForwardSlashes_strip in Hr.
      apply (dot_slash_longer rest0). congruence.
  - exists buf, buf. repeat split; try assumption; try reflexivity.
    intros _ rest ->.
    change ("././" +:+ rest) with ("./" +:+ ("./" +:+ rest)) in Hb.
    rewrite RemoveLeadingPeriodAndForwardSlashes_strip in Hb.
    apply (dot_slash_longer ("./" +:+ rest)). congruence.
Qed.

(** C7 as stated fails: on ["././a"] the first application yields
    ["./a"] and the second yields ["a"]. *)
Lemma RemoveLeadingPeriodAndForwardSlashes_not_idempotent :
  ~ (forall buf r : string,
       RemoveLeadingPeriodAndForwardSlashes (Some buf) = Ok r ->
       RemoveLeadingPeriodAndForwardSlashes (Some r) = Ok r).
Proof.
  intros H. specialize (H "././a" "./a" eq_refl). discriminate H.
Qed.

(** ** Full paths *)

(** Induction along the parent chain. *)
Lemma PathQuery_chain_ind (P : PathQuery -> Prop) :
  (forall s l, P (mkPathQuery s None l)) ->
  (forall s q l, P q -> P (mkPathQuery s (Some q) l)) ->
  forall q, P q.
Proof.
  intros Hroot Hchild. fix IH 1.
  intros [s [q'|] l]; [apply Hchild, IH | apply Hroot].
Qed.

Lemma join_segments_app (l1 l2 : list string) :
  join_segments (l1 ++ l2) = join_segments l1 +:+ join_segments l2.
Proof.
  induction l1 as [|s l1 IH]; simpl; [reflexivity|].
  now rewrite IH, !string_app_assoc.
Qed.

Section FullPath.
Variable PATH_MAX : nat.

(** While the text fits the buffers, the loop prepends the segments of
    the chain, root first, to the accumulator. *)
Lemma PathQueryGetPath_loop_joins (q : PathQuery) :
  forall acc : string,
    (String.length (join_segments (segments q) +:+ acc) < PATH_MAX)%nat ->
    PathQueryGetPath_loop PATH_MAX q acc = join_segments (segments q) +:+ acc.
Proof.
  induction q as [s l | s q l IH] using PathQuery_chain_ind; intros acc Hfit.
  - simpl in *. rewrite string_app_empty_r, string_app_assoc in *.
    rewrite snprintf_fits by assumption.
    rewrite strncpy_fits by assumption. reflexivity.
  - simpl in *. rewrite join_segments_app in *. simpl in Hfit |- *.
    rewrite string_app_empty_r, !string_app_assoc in *.
    assert (Hstep : (String.length (s +:+ "/" +:+ acc) < PATH_MAX)%nat).
    { rewrite string_length_app in Hfit. lia. }
    rewrite snprintf_fits by assumption.
    rewrite strncpy_fits by assumption.
    now apply IH.
Qed.

(** C5. The full path of a node is the segments of its chain, root
    first, each followed by a ["/"], with the trailing slashes
    stripped, as long as that text fits a buffer of [PATH_MAX] bytes;
    the grandchild ["z"] of the child ["y"] of the root ["x"] has the
    full path ["x/y/z"]. *)
Theorem PathQueryGetPath_joins :
  (forall q : PathQuery,
     (String.length (join_segments (segments q)) < PATH_MAX)%nat ->
     PathQueryGetPath PATH_MAX (Some q)
     = RemoveTrailingForwardSlashes (Some (join_segments (segments q)))) /\
  ((7 <= PATH_MAX)%nat ->
   exists x y z : PathQuery,
     PathQueryCreate PATH_MAX (Some "x") = Ok x
     /\ PathQueryCreateChild PATH_MAX (Some x) (Some "y") = Ok y
     /\ PathQueryCreateChild PATH_MAX (Some y) (Some "z") = Ok z
     /\ segments z = ["x"; "y"; "z"]
     /\ PathQueryGetPath PATH_MAX (Some z) = Ok "x/y/z").
Proof.
  assert (Hgen : forall q : PathQuery,
     (String.length (join_segments (segments q)) < PATH_MAX)%nat ->
     PathQueryGetPath PATH_MAX (Some q)
     = RemoveTrailingForwardSlashes (Some (join_segments (segments q)))).
  { intros q Hfit. unfold PathQueryGetPath.
    rewrite <- (string_app_empty_r (join_segments (segments q))) in Hfit.
    rewrite (PathQueryGetPath_loop_joins q EmptyString Hfit).
    rewrite string_app_empty_r in *.
    unfold RemoveTrailingForwardSlashes, written. f_equal.
    apply strncpy_fits.
    pose proof (RemoveTrailingForwardSlashes_loop_length
                  (join_segments (segments q))
                  (String.length (join_segments (segments q)) - 1)).
    lia. }
  split; [exact Hgen|].
  intros Hmax.
  unfold PathQueryCreate, PathQueryCreateChild.
  rewrite !strncpy_fits by (simpl; lia).
  do 3 eexists. repeat split.
  rewrite Hgen by (simpl; lia). reflexivity.
Qed.
End FullPath.

Lemma PathQueryGetPath_joins_witness :
  (String.length (join_segments (segments
     (mkPathQuery "b" (Some (mkPathQuery "/a" None 0)) 1))) < 4096)%nat
  /\ PathQueryGetPath 4096 (Some (mkPathQuery "b" (Some (mkPathQuery "/a" None 0)) 1))
     = Ok "/a/b"
  /\ (7 <= 4096)%nat
  /\ exists x y z : PathQuery,
       PathQueryCreate 4096 (Some "x") = Ok x
       /\ PathQueryCreateChild 4096 (Some x) (Some "y") = Ok y
       /\ PathQueryCreateChild 4096 (Some y) (Some "z") = Ok z
       /\ segments z = ["x"; "y"; "z"]
       /\ PathQueryGetPath 4096 (Some z) = Ok "x/y/z".
Proof.
  assert (H1 : (String.length (join_segments (segments
     (mkPathQuery "b" (Some (mkPathQuery "/a" None 0)) 1))) < 4096)%nat)
    by (simpl; lia).
  assert (H2 : (7 <= 4096)%nat) by lia.
  split; [exact H1 | split; [| split; [exact H2 |]]].
  - rewrite (proj1 (PathQueryGetPath_joins 4096) _ H1). reflexivity.
  - exact (proj2 (PathQueryGetPath_joins 4096) H2).
Defined.

(** ** Levels *)

(** C10. The level of the null node is 1, which is also the level of
    every child of a root node: the value does not tell the two apart. *)
Theorem PathQueryGetLevel_null (PATH_MAX : nat) :
  PathQueryGetLevel None = 1 /\
  forall path leaf : string, exists root child : PathQuery,
    PathQueryCreate PATH_MAX (Some path) = Ok root
    /\ PathQueryCreateChild PATH_MAX (Some root) (Some leaf) = Ok child
    /\ parent child = Some root
    /\ PathQueryGetLevel (Some root) = 0
    /\ PathQueryGetLevel (Some child) = PathQueryGetLevel None.
Proof.
  split; [reflexivity|].
  intros path leaf. unfold PathQueryCreate, PathQueryCreateChild.
  do 2 eexists. repeat split.
Qed.

(** ** The path list *)

Lemma strncpy_whole (s : string) : strncpy s (String.length s + 1) = s.
Proof. apply strncpy_fits. lia. Qed.

(** C4. The size of a path list is the number of its files plus the
    number of its directories; an index below the number of files selects
    that element of the files, an index from there up to the size selects
    the element of the directories at the index less the number of files,
    and the index equal to the size is refused with return value 1. *)
Theorem PathList_size_and_index (ps : PathList) :
  PathListGetSize (Some ps) = (length (arrayfile ps) + length (arraydir ps))%nat
  /\ (forall i : nat,
        (i < length (arrayfile ps))%nat ->
        exists s, arrayfile ps !! i = Some s
                  /\ PathListGetPathAtIndex (Some ps) i = Ok s)
  /\ (forall i : nat,
        (length (arrayfile ps) <= i < PathListGetSize (Some ps))%nat ->
        exists s, arraydir ps !! (i - length (arrayfile ps))%nat = Some s
                  /\ PathListGetPathAtIndex (Some ps) i = Ok s)
  /\ PathListGetPathAtIndex (Some ps) (PathListGetSize (Some ps)) = Err 1.
Proof.
  unfold PathListGetPathAtIndex, PathListGetSize, sizefile, sizedir.
  split; [reflexivity | split; [| split]].
  - intros i Hi. exists (arrayfile ps !!! i). split.
    + now apply list_lookup_lookup_total_lt.
    + destruct (Nat.leb_spec (length (arrayfile ps) + length (arraydir ps)) i);
        [lia|].
      destruct (Nat.ltb_spec i (length (arrayfile ps))); [|lia].
      now rewrite strncpy_whole.
  - intros i Hi. exists (arraydir ps !!! (i - length (arrayfile ps))%nat). split.
    + apply list_lookup_lookup_total_lt. lia.
    + destruct (Nat.leb_spec (length (arrayfile ps) + length (arraydir ps)) i);
        [lia|].
      destruct (Nat.ltb_spec i (length (arrayfile ps))); [lia|].
      now rewrite strncpy_whole.
  - now rewrite Nat.leb_refl.
Qed.

Lemma PathList_size_and_index_witness :
  let ps := mkPathList ["a.txt"; "b.txt"] ["sub"] in
  PathListGetSize (Some ps) = 3%nat
  /\ PathListGetPathAtIndex (Some ps) 1 = Ok "b.txt"
  /\ PathListGetPathAtIndex (Some ps) 2 = Ok "sub"
  /\ PathListGetPathAtIndex (Some ps) 3 = Err 1.
Proof.
  intros ps.
  destruct (PathList_size_and_index ps) as (Hsize & Hfile & Hdir & Hend).
  split; [exact Hsize | split; [| split; [| exact Hend]]].
  - destruct (Hfile 1%nat) as (s & Hs & Hat); [cbv; lia|].
    rewrite Hat. simpl in Hs. now injection Hs as ->.
  - destruct (Hdir 2%nat) as (s & Hs & Hat); [cbv; lia|].
    rewrite Hat. simpl in Hs. now injection Hs as ->.
Defined.

(** ** Loops *)

(** An invariant that holds on entry and is kept by every iteration
    holds on exit. *)
Lemma for_loop_inv {St : Type} (P : nat -> St -> Prop)
    (body : nat -> St -> St) (n : nat) :
  forall (i : nat) (s : St),
    P i s ->
    (forall k s', (i <= k < i + n)%nat -> P k s' -> P (S k) (body k s')) ->
    P (i + n)%nat (for_loop n i body s).
Proof.
  induction n as [|n IH]; intros i s H0 Hstep; simpl.
  - now rewrite Nat.add_0_r.
  - replace (i + S n)%nat with (S i + n)%nat by lia.
    apply IH.
    + apply Hstep; [lia | assumption].
    + intros k s' Hk. apply Hstep. lia.
Qed.

(** ** The order of [strcmp] *)

Lemma strcmp_refl (a : string) : strcmp a a = 0.
Proof.
  induction a as [|c a IH]; simpl; [reflexivity|]. now rewrite N.compare_refl.
Qed.

Lemma strcmp_antisym (a b : string) : strcmp b a = - strcmp a b.
Proof.
  revert b; induction a as [|c a IH]; intros [|d b]; simpl; try reflexivity.
  rewrite (N.compare_antisym (N_of_ascii c) (N_of_ascii d)).
  destruct (N_of_ascii c ?= N_of_ascii d)%N; simpl; auto.
Qed.

Lemma strcmp_eq (a b : string) : strcmp a b = 0 -> a = b.
Proof.
  revert b; induction a as [|c a IH]; intros [|d b]; simpl;
    try discriminate; try reflexivity.
  destruct (N.compare_spec (N_of_ascii c) (N_of_ascii d)) as [E| |];
    try discriminate.
  intros H. apply (f_equal ascii_of_N) in E. rewrite !ascii_N_embedding in E.
  subst d. f_equal. now apply IH.
Qed.

Lemma strcmp_eqb (a b : string) : (strcmp a b =? 0) = String.eqb a b.
Proof.
  destruct (String.eqb_spec a b) as [-> | Hne].
  - now rewrite strcmp_refl.
  - apply Z.eqb_neq. intros H. now apply Hne, strcmp_eq.
Qed.

Lemma str_le_refl (a : string) : str_le a a.
Proof. unfold str_le. rewrite strcmp_refl. lia. Qed.

Lemma str_le_trans (a b c : string) : str_le a b -> str_le b c -> str_le a c.
Proof.
  unfold str_le.
  revert b c; induction a as [|x a IH]; intros [|y b] [|z c]; simpl; try lia.
  destruct (N.compare_spec (N_of_ascii x) (N_of_ascii y));
    destruct (N.compare_spec (N_of_ascii y) (N_of_ascii z));
    destruct (N.compare_spec (N_of_ascii x) (N_of_ascii z));
    try lia.
  apply IH.
Qed.

Lemma str_le_total (a b : string) : str_le a b \/ str_le b a.
Proof. unfold str_le. rewrite (strcmp_antisym a b). lia. Qed.

Lemma str_le_antisym (a b : string) : str_le a b -> str_le b a -> a = b.
Proof.
  unfold str_le. rewrite (strcmp_antisym a b). intros H1 H2.
  apply strcmp_eq. lia.
Qed.

(** ** Selection sort *)

Lemma ArraySort_min_spec (array : list string) (size i : nat) :
  (i < size)%nat ->
  (i <= ArraySort_min array size i < size)%nat /\
  forall q : nat,
    (i <= q < size)%nat ->
    str_le (array !!! ArraySort_min array size i) (array !!! q).
Proof.
  intros Hi. unfold ArraySort_min.
  set (body := fun j min : nat =>
                 if strcmp (array !!! j) (array !!! min) <? 0 then j else min).
  pose (P := fun j min : nat =>
               (i <= min < j)%nat /\
               forall q : nat, (i <= q < j)%nat ->
                               str_le (array !!! min) (array !!! q)).
  assert (H : P ((i + 1) + (size - (i + 1)))%nat
                (for_loop (size - (i + 1)) (i + 1) body i)).
  { apply (for_loop_inv P).
    - split; [lia|]. intros q Hq. replace q with i by lia. apply str_le_refl.
    - intros j min Hj [Hmin Hle]. unfold body.
      destruct (Z.ltb_spec (strcmp (array !!! j) (array !!! min)) 0) as [Hlt|Hge].
      + split; [lia|]. intros q Hq.
        destruct (decide (q = j)) as [->|Hne]; [apply str_le_refl|].
        apply str_le_trans with (array !!! min); [unfold str_le; lia|].
        apply Hle. lia.
      + split; [lia|]. intros q Hq.
        destruct (decide (q = j)) as [->|Hne]; [|apply Hle; lia].
        unfold str_le. rewrite strcmp_antisym. lia. }
  replace (i + 1 + (size - (i + 1)))%nat with size in H by lia.
  exact H.
Qed.

(** On an array whose element at [i] is below all that follow, the
    search keeps [i]. *)
Lemma ArraySort_min_sorted (array : list string) (size i : nat) :
  (forall q : nat, (i <= q < size)%nat -> str_le (array !!! i) (array !!! q)) ->
  ArraySort_min array size i = i.
Proof.
  intros Hle. unfold ArraySort_min.
  destruct (Nat.le_gt_cases size (i + 1)) as [Hge|Hlt].
  { replace (size - (i + 1))%nat with 0%nat by lia. reflexivity. }
  apply (for_loop_inv (fun _ min : nat => min = i)); [reflexivity|].
  intros j min Hj ->.
  destruct (Z.ltb_spec (strcmp (array !!! j) (array !!! i)) 0) as [Hlt'|]; [|reflexivity].
  assert (H : str_le (array !!! i) (array !!! j)) by (apply Hle; lia).
  unfold str_le in H. rewrite (strcmp_antisym (array !!! j) (array !!! i)) in H. lia.
Qed.

Lemma swap_lookup_total (array : list string) (i m b : nat) :
  (i < length array)%nat -> (m < length array)%nat ->
  <[i := array !!! m]> (<[m := array !!! i]> array) !!! b
  = array !!! (if decide (b = i) then m else if decide (b = m) then i else b).
Proof.
  intros Hi Hm. rewrite !list_lookup_total_insert, length_insert.
  repeat case_decide; subst; try reflexivity; lia.
Qed.

Lemma ArraySort_loop_spec (array : list string) (size : nat) :
  (size <= length array)%nat ->
  length (ArraySort_loop array size) = length array
  /\ Permutation (ArraySort_loop array size) array
  /\ sorted_upto size size (ArraySort_loop array size).
Proof.
  intros Hsize. unfold ArraySort_loop.
  pose (P := fun (i : nat) (arr : list string) =>
               length arr = length array /\ Permutation arr array
               /\ sorted_upto size i arr).
  apply (for_loop_inv P _ size 0%nat array).
  - repeat split; [reflexivity|]. intros a b Ha. lia.
  - intros i arr Hi (Hlen & Hperm & Hsorted).
    destruct (ArraySort_min_spec arr size i) as [Hm Hmin]; [lia|].
    destruct (Nat.eqb_spec (ArraySort_min arr size i) i) as [E|N]; simpl.
    + repeat split; try assumption.
      intros a b Ha Hb. destruct (decide (a = i)) as [->|Hne].
      * rewrite <- E at 1. apply Hmin. lia.
      * apply Hsorted; lia.
    + set (m := ArraySort_min arr size i) in *.
      split; [now rewrite !length_insert | split].
      * etransitivity; [|exact Hperm].
        apply Permutation_insert_swap; apply list_lookup_lookup_total_lt; lia.
      * intros a b Ha Hb. rewrite !swap_lookup_total by lia.
        destruct (decide (a = i)) as [->|Hai].
        -- apply Hmin. repeat case_decide; lia.
        -- destruct (decide (a = m)) as [->|Ham]; [lia|].
           apply Hsorted; repeat case_decide; lia.
Qed.

Lemma ArraySort_loop_sorted (array : list string) (size : nat) :
  sorted_upto size size array -> ArraySort_loop array size = array.
Proof.
  intros Hsorted. unfold ArraySort_loop.
  apply (for_loop_inv (fun (_ : nat) (arr : list string) => arr = array) _ size 0%nat);
    [reflexivity|].
  intros i arr Hi ->.
  rewrite ArraySort_min_sorted; [now rewrite Nat.eqb_refl|].
  intros q Hq. apply Hsorted; lia.
Qed.

Lemma sorted_upto_adjacent (array : list string) :
  sorted_upto (length array) (length array) array -> adjacent_sorted array.
Proof.
  intros H k a b Ha Hb.
  pose proof (lookup_lt_Some _ _ _ Hb).
  rewrite <- (list_lookup_total_correct _ _ _ Ha).
  rewrite <- (list_lookup_total_correct _ _ _ Hb).
  apply H; lia.
Qed.

Lemma adjacent_sorted_upto (array : list string) :
  adjacent_sorted array -> sorted_upto (length array) (length array) array.
Proof.
  intros Hadj a b _ Hb.
  replace b with (a + (b - a))%nat by lia.
  assert (Hd : (a + (b - a) < length array)%nat) by lia.
  revert Hd. generalize (b - a)%nat as d. clear b Hb.
  induction d as [|d IH]; intros Hd.
  - rewrite Nat.add_0_r. apply str_le_refl.
  - apply str_le_trans with (array !!! (a + d)%nat); [apply IH; lia|].
    replace (a + S d)%nat with (S (a + d)) by lia.
    apply (Hadj (a + d)%nat); apply list_lookup_lookup_total_lt; lia.
Qed.

(** C8. Sorting an array of distinct strings leaves every adjacent pair
    [a], [b] with [a <= b] in the order of [strcmp], and sorting the
    result again returns it unchanged; an array that is already in order
    is returned as it is.  (Distinctness is not used.) *)
Theorem ArraySort_sorts :
  forall array : list string,
    NoDup array ->
    (exists r,
       ArraySort (Some array) (length array) = Ok r
       /\ adjacent_sorted r
       /\ ArraySort (Some r) (length r) = Ok r)
    /\ (adjacent_sorted array -> ArraySort (Some array) (length array) = Ok array).
Proof.
  intros array _. split.
  - destruct (ArraySort_loop_spec array (length array)) as (Hlen & _ & Hsorted);
      [lia|].
    unfold ArraySort.
    set (r := ArraySort_loop array (length array)) in *.
    exists r. rewrite <- Hlen in Hsorted.
    repeat split.
    + now apply sorted_upto_adjacent.
    + f_equal. now apply ArraySort_loop_sorted.
  - intros Hadj. unfold ArraySort. f_equal.
    now apply ArraySort_loop_sorted, adjacent_sorted_upto.
Qed.

Lemma ArraySort_sorts_witness :
  NoDup ["e"; "d"; "c"; "b"; "a"]
  /\ ArraySort (Some ["e"; "d"; "c"; "b"; "a"]) 5 = Ok ["a"; "b"; "c"; "d"; "e"]
  /\ (exists r,
        ArraySort (Some ["e"; "d"; "c"; "b"; "a"]) 5 = Ok r
        /\ adjacent_sorted r
        /\ ArraySort (Some r) (length r) = Ok r).
Proof.
  assert (Hnd : NoDup ["e"; "d"; "c"; "b"; "a"])
    by (apply (bool_decide_unpack _); vm_compute; exact I).
  split; [exact Hnd | split; [reflexivity|]].
  exact (proj1 (ArraySort_sorts ["e"; "d"; "c"; "b"; "a"] Hnd)).
Defined.

(** C9. Sorting the first [size] elements of an array only exchanges
    elements: the result is a permutation of the input, and every string
    occurs in it as many times as in the input. *)
Theorem ArraySort_permutes (array : list string) (size : nat) :
  (size <= length array)%nat ->
  exists r,
    ArraySort (Some array) size = Ok r
    /\ Permutation r array
    /\ forall s : string,
         count_occ string_dec r s = count_occ string_dec array s.
Proof.
  intros Hsize.
  destruct (ArraySort_loop_spec array size Hsize) as (_ & Hperm & _).
  exists (ArraySort_loop array size). repeat split; [assumption|].
  intros s. now apply Permutation_count_occ.
Qed.

Lemma ArraySort_permutes_witness :
  (3 <= length ["b"; "a"; "b"])%nat
  /\ exists r,
       ArraySort (Some ["b"; "a"; "b"]) 3 = Ok r
       /\ Permutation r ["b"; "a"; "b"]
       /\ forall s : string,
            count_occ string_dec r s = count_occ string_dec ["b"; "a"; "b"] s.
Proof.
  assert (H : (3 <= length ["b"; "a"; "b"])%nat) by (simpl; lia).
  split; [exact H|].
  exact (ArraySort_permutes ["b"; "a"; "b"] 3 H).
Defined.

(** ** Loops that write *)

Lemma for_each_app_out {A : Type} (body : A -> option (list Output))
    (l : list A) (out : list Output) :
  for_each body l = Some out ->
  forall e, In e out -> exists x o, In x l /\ body x = Some o /\ In e o.
Proof.
  revert out. induction l as [|x l IH]; intros out; cbn [for_each].
  - intros [= <-] e [].
  - destruct (body x) as [o|] eqn:Hx; [|discriminate].
    destruct (for_each body l) as [rest|]; [|discriminate].
    intros [= <-] e [He | He]%in_app_or.
    + exists x, o. split; [now left | split; [exact Hx | exact He]].
    + destruct (IH rest eq_refl e He) as (y & o' & Hy & Hb & Hin).
      exists y, o'. split; [now right | split; assumption].
Qed.

Lemma for_each_body_out {A : Type} (body : A -> option (list Output))
    (l : list A) (out : list Output) :
  for_each body l = Some out ->
  forall x, In x l ->
  exists o, body x = Some o /\ forall e, In e o -> In e out.
Proof.
  revert out. induction l as [|y l IH]; intros out; cbn [for_each].
  - intros _ x [].
  - destruct (body y) as [o|] eqn:Hy; [|discriminate].
    destruct (for_each body l) as [rest|]; [|discriminate].
    intros [= <-] x [<- | Hx].
    + exists o. split; [exact Hy|]. intros e He. apply in_or_app. now left.
    + destruct (IH rest eq_refl x Hx) as (o' & Hb & Hin).
      exists o'. split; [exact Hb|]. intros e He. apply in_or_app. right. auto.
Qed.


Lemma for_each_defined {A : Type} (body : A -> option (list Output))
    (l : list A) :
  (forall x, In x l -> exists o, body x = Some o) ->
  exists out, for_each body l = Some out.
Proof.
  induction l as [|y l IH]; intros H; cbn [for_each]; [eauto|].
  destruct (H y) as [o ->]; [now left|].
  destruct IH as [rest ->]; [|eauto].
  intros x Hx. apply H. now right.
Qed.


Lemma for_each_filter {A : Type} (body : A -> option (list Output))
    (keep : A -> bool) (l : list A) :
  (forall x, keep x = false -> body x = Some []) ->
  for_each body l = for_each body (List.filter keep l).
Proof.
  intros H. induction l as [|x l IH]; [reflexivity|].
  cbn [for_each List.filter].
  destruct (keep x) eqn:Hk; cbn [for_each]; [now rewrite IH|].
  rewrite (H x Hk), IH. now destruct (for_each body (List.filter keep l)).
Qed.


(** ** Rendering *)

Section Rendering.
Variable PATH_MAX : nat.
Variable os : OS.

Lemma GetPrintablePath_Ok (q : PathQuery) (args : option Arguments) :
  exists item, GetPrintablePath PATH_MAX os (Some q) args = ([], Ok item).
Proof.
  unfold GetPrintablePath, PathQueryGetPath.
  destruct (0 <? PathQueryGetLevel (Some q)); [eexists; reflexivity|].
  unfold RemoveLeadingPeriodAndForwardSlashes.
  match goal with |- context [if ?c then _ else _] => destruct c end;
    eexists; reflexivity.
Qed.

(** A failing exit of the metadata stage writes one message and
    returns 1. *)
Lemma PathQueryPrintPath_stat_failure (path : string) (out : list Output)
    (code : int) :
  PathQueryPrintPath_stat PATH_MAX os path = inl (out, code) ->
  (exists format args, out = [Printf format args]) /\ code = 1.
Proof.
  unfold PathQueryPrintPath_stat.
  destruct (lstat os path) as [st|e]; [|intros [= <- <-]; eauto].
  destruct (S_ISLNK (st_mode st)); simpl; [discriminate|].
  destruct (stat os path) as [st'|e]; [discriminate|].
  intros [= <- <-]; eauto.
Qed.

(** The call of the detailed presentation, by its lookups. *)
Lemma PathQueryPrintPathDetail_call_presented (item : string)
    (st : struct_stat) (sizebuf linkdesc : string) :
  PathQueryPrintPathDetail_call os item (StatGetModeType st)
    (Z.land (st_mode st) (Z.lor (Z.lor S_IRWXU S_IRWXG) S_IRWXO))
    (st_mtime st) (st_atime st) (st_ctime st) sizebuf
    (StatGetModeTypeColor st) linkdesc (st_uid st) (st_gid st)
  = presented os true item st sizebuf linkdesc.
Proof.
  unfold PathQueryPrintPathDetail_call, presented, lookups_answer, rendering,
    permission_bits.
  destruct (realpath os item), (getpwuid os (st_uid st)),
    (getgrgid os (st_gid st)); reflexivity.
Qed.

(** Once the metadata stage and the size formatting succeed, the call
    reaches the presentation of the entry, from that metadata, in detail
    exactly when the path list has one element and the node has
    level 0. *)
Lemma PathQueryPrintPath_renders (q : PathQuery) (a : Arguments)
    (st : struct_stat) (linkdesc : string) :
  PathQueryPrintPath_stat PATH_MAX os
    (written (PathQueryGetPath PATH_MAX (Some q))) = inr (st, linkdesc) ->
  fst (BFByteGetString os (st_size st mod 2 ^ 64)) = 0 ->
  exists item,
    GetPrintablePath PATH_MAX os (Some q) (Some a) = ([], Ok item)
    /\ PathQueryPrintPath PATH_MAX os (Some q) (Some a)
       = presented os
           ((PathListGetSize (Some (paths a)) =? 1)%nat
            && (PathQueryGetLevel (Some q) =? 0))
           item st (snd (BFByteGetString os (st_size st mod 2 ^ 64))) linkdesc.
Proof.
  intros Hstat Hsize. unfold PathQueryPrintPath. rewrite Hstat.
  destruct (GetPrintablePath_Ok q (Some a)) as [item Hitem]. rewrite Hitem.
  destruct (BFByteGetString os (st_size st mod 2 ^ 64)) as [error sizebuf].
  cbn [fst snd] in *. subst error. cbn [Z.eqb negb app].
  exists item. split; [reflexivity|].
  match goal with |- context [if ?c then _ else _] => destruct c end.
  - rewrite PathQueryPrintPathDetail_call_presented.
    now destruct (presented os true item st sizebuf linkdesc) as [[]|].
  - reflexivity.
Qed.

(** The three ways a call ends: a message of the metadata stage and 1;
    nothing written and the error of the size formatting; or the
    presentation. *)
Lemma PathQueryPrintPath_cases (q : PathQuery) (a : Arguments) :
  (exists format args,
     PathQueryPrintPath PATH_MAX os (Some q) (Some a)
     = Some ([Printf format args], 1))
  \/ (exists error,
        error <> 0
        /\ PathQueryPrintPath PATH_MAX os (Some q) (Some a) = Some ([], error))
  \/ (exists item st sizebuf linkdesc,
        GetPrintablePath PATH_MAX os (Some q) (Some a) = ([], Ok item)
        /\ PathQueryPrintPath_stat PATH_MAX os
             (written (PathQueryGetPath PATH_MAX (Some q)))
           = inr (st, linkdesc)
        /\ PathQueryPrintPath PATH_MAX os (Some q) (Some a)
           = presented os
               ((PathListGetSize (Some (paths a)) =? 1)%nat
                && (PathQueryGetLevel (Some q) =? 0))
               item st sizebuf linkdesc).
Proof.
  destruct (PathQueryPrintPath_stat PATH_MAX os
              (written (PathQueryGetPath PATH_MAX (Some q))))
    as [[out code] | [st linkdesc]] eqn:Hstat.
  - left. unfold PathQueryPrintPath. rewrite Hstat.
    destruct (PathQueryPrintPath_stat_failure _ _ _ Hstat)
      as ((fmt & args & ->) & ->).
    eauto.
  - destruct (BFByteGetString os (st_size st mod 2 ^ 64))
      as [error sizebuf] eqn:Hb.
    destruct (Z.eqb_spec error 0) as [-> | Hne].
    + right; right.
      destruct (PathQueryPrintPath_renders q a st linkdesc Hstat)
        as (item & Hitem & Hpp); [now rewrite Hb|].
      rewrite Hpp. exists item, st. eauto.
    + right; left. exists error. split; [assumption|].
      unfold PathQueryPrintPath. rewrite Hstat, Hb.
      now destruct (Z.eqb_spec error 0).
Qed.

Lemma presented_Some (detail : bool) (item : string) (st : struct_stat)
    (sizebuf linkdesc : string) (out : list Output) (err : int) :
  presented os detail item st sizebuf linkdesc = Some (out, err) ->
  out = [rendering detail item st sizebuf linkdesc] /\ err = 0.
Proof.
  unfold presented.
  destruct (detail && negb (lookups_answer os item st)); [discriminate|].
  now intros [= <- <-].
Qed.

Lemma rendering_presentation (detail : bool) (item : string)
    (st : struct_stat) (sizebuf linkdesc : string) :
  is_detail (rendering detail item st sizebuf linkdesc) = detail
  /\ is_brief (rendering detail item st sizebuf linkdesc) = negb detail.
Proof. destruct detail; split; reflexivity. Qed.

(** Every presentation written by [PathQueryPrintPath] is its whole
    output, comes with the return value 0, and follows the detail
    condition. *)
Lemma PathQueryPrintPath_presentation (q : PathQuery) (a : Arguments)
    (out : list Output) (err : int) (e : Output) :
  PathQueryPrintPath PATH_MAX os (Some q) (Some a) = Some (out, err) ->
  In e out ->
  is_detail e || is_brief e = true ->
  out = [e] /\ err = 0
  /\ is_detail e = (PathListGetSize (Some (paths a)) =? 1)%nat
                   && (PathQueryGetLevel (Some q) =? 0)
  /\ is_brief e = negb (is_detail e).
Proof.
  intros Hpp Hin He.
  destruct (PathQueryPrintPath_cases q a)
    as [(fmt & args & H)
       | [(error & _ & H) | (item & st & sb & ld & Hitem & Hstat & H)]];
    rewrite H in Hpp.
  - injection Hpp as <- <-. destruct Hin as [<- | []]. discriminate.
  - injection Hpp as <- <-. destruct Hin.
  - apply presented_Some in Hpp as [-> ->]. destruct Hin as [<- | []].
    destruct (rendering_presentation
                ((PathListGetSize (Some (paths a)) =? 1)%nat
                 && (PathQueryGetLevel (Some q) =? 0)) item st sb ld)
      as [Hd Hb].
    rewrite Hb, Hd. auto.
Qed.

(** The behaviour of a call is undefined only for a detailed
    presentation one of whose lookups does not answer. *)
Lemma PathQueryPrintPath_undefined (q : PathQuery) (a : Arguments) :
  PathQueryPrintPath PATH_MAX os (Some q) (Some a) = None ->
  PathListGetSize (Some (paths a)) = 1%nat
  /\ PathQueryGetLevel (Some q) = 0
  /\ exists item st linkdesc,
       GetPrintablePath PATH_MAX os (Some q) (Some a) = ([], Ok item)
       /\ PathQueryPrintPath_stat PATH_MAX os
            (written (PathQueryGetPath PATH_MAX (Some q)))
          = inr (st, linkdesc)
       /\ lookups_answer os item st = false.
Proof.
  intros Hpp.
  destruct (PathQueryPrintPath_cases q a)
    as [(fmt & args & H)
       | [(error & _ & H) | (item & st & sb & ld & Hitem & Hstat & H)]];
    rewrite H in Hpp; try discriminate.
  unfold presented in Hpp.
  destruct (Nat.eqb_spec (PathListGetSize (Some (paths a))) 1);
    [|discriminate].
  destruct (Z.eqb_spec (PathQueryGetLevel (Some q)) 0); [|discriminate].
  cbn [andb] in Hpp.
  destruct (lookups_answer os item st) eqn:Hl; [discriminate|].
  split; [assumption | split; [assumption|]].
  exists item, st, ld. auto.
Qed.
End Rendering.

(** ** Traversal *)

Lemma In_presentation_tail (e : Output) (c : bool) (out o : list Output)
    (format : string) (args : list printf_arg) :
  (if c then Some (out ++ [Printf format args]) else Some out) = Some o ->
  In e o ->
  is_detail e || is_brief e = true ->
  In e out.
Proof.
  destruct c; intros [= <-]; [|tauto].
  intros [H | [<- | []]]%in_app_or He; [assumption | discriminate].
Qed.

Lemma root_of_child (PATH_MAX : nat) (root node : PathQuery) (name : string) :
  parent root = None ->
  PathQueryCreateChild PATH_MAX (Some root) (Some name) = Ok node ->
  root_of node = root /\ PathQueryGetLevel (Some node) = (lvl root + 1) mod 256.
Proof.
  intros Hroot [= <-]. destruct root as [s up l]. simpl in *. subst up.
  split; reflexivity.
Qed.

Lemma PathQueryCreate_root (PATH_MAX : nat) (currpath : string)
    (root : PathQuery) :
  PathQueryCreate PATH_MAX (Some currpath) = Ok root ->
  parent root = None /\ lvl root = 0 /\ PathQueryGetLevel (Some root) = 0.
Proof. intros [= <-]. repeat split. Qed.

Lemma presentation_iff (e : Output) (n : nat) (file : bool) (l : Z) :
  is_detail e = (n =? 1)%nat && (l =? 0) ->
  is_brief e = negb (is_detail e) ->
  (l = 0 -> file = true) ->
  (is_detail e = true <-> n = 1%nat /\ file = true /\ l = 0) /\
  (is_brief e = true <-> ~ (n = 1%nat /\ file = true /\ l = 0)).
Proof.
  intros Hd Hb Hf. rewrite Hb, Hd.
  destruct (Nat.eqb_spec n 1), (Z.eqb_spec l 0); simpl;
    split; split; intros; try discriminate; try reflexivity; tauto.
Qed.

Lemma PathListGetPathAtIndex_Ok (ps : PathList) (i : nat) (s : string) :
  PathListGetPathAtIndex (Some ps) i = Ok s ->
  (i < PathListGetSize (Some ps))%nat.
Proof.
  unfold PathListGetPathAtIndex.
  destruct (Nat.leb_spec (PathListGetSize (Some ps)) i); [discriminate|].
  intros _. assumption.
Qed.

(** What the step of [GetInfo] at a listed path gives, when it is
    defined: the output of the call that the root is handed to, and
    perhaps a message after it. *)
Lemma GetInfo_step_call (PATH_MAX : nat) (os : OS) (a : Arguments) (i : nat)
    (currpath : string) (root : PathQuery) (o : list Output) :
  PathListGetPathAtIndex (Some (paths a)) i = Ok currpath ->
  PathQueryCreate PATH_MAX (Some currpath) = Ok root ->
  GetInfo_step PATH_MAX os a i = Some o ->
  exists out err,
    (if PathQueryIsFile (BFFileSystemPathIsFile os) (Some root) then
       PathQueryPrintPath PATH_MAX os (Some root) (Some a)
     else PathQueryPrintDir PATH_MAX os (Some root) (Some a))
    = Some (out, err)
    /\ (if negb (err =? 0) then
          Some (out ++ [Printf "error: code - %d, path couldn't be worked on %s\n"
                          [ArgD err; ArgS currpath]])
        else Some out) = Some o.
Proof.
  intros Hat Hroot. unfold GetInfo_step. rewrite Hat.
  destruct (PATH_MAX <=? String.length currpath)%nat; [discriminate|].
  rewrite Hroot.
  destruct (if PathQueryIsFile (BFFileSystemPathIsFile os) (Some root)
            then PathQueryPrintPath PATH_MAX os (Some root) (Some a)
            else PathQueryPrintDir PATH_MAX os (Some root) (Some a))
    as [[out err]|]; [|discriminate].
  intros H. exists out, err. split; [reflexivity | exact H].
Qed.

(** What the step of [PathQueryPrintDir] at an entry that is listed
    gives, when it is defined. *)
Lemma PathQueryPrintDir_entry_call (PATH_MAX : nat) (os : OS)
    (d node : PathQuery) (a : Arguments) (entry : dirent) (o : list Output) :
  listed a entry = true ->
  PathQueryCreateChild PATH_MAX (Some d) (Some (d_name entry)) = Ok node ->
  PathQueryPrintDir_entry PATH_MAX os d a entry = Some o ->
  exists out err,
    PathQueryPrintPath PATH_MAX os (Some node) (Some a) = Some (out, err)
    /\ (if negb (err =? 0) then
          Some (out ++ [Printf "error: path couldn't be worked on %s\n"
                          [ArgUndef]])
        else Some out) = Some o.
Proof.
  intros Hl Hc. unfold listed in Hl. unfold PathQueryPrintDir_entry.
  rewrite !strcmp_eqb.
  apply andb_prop in Hl as [Hl Hrec]. rewrite Hl.
  apply negb_true_iff in Hrec. rewrite Hrec, Hc.
  destruct (PathQueryPrintPath PATH_MAX os (Some node) (Some a))
    as [[out err]|]; [|discriminate].
  intros H. exists out, err. split; [reflexivity | exact H].
Qed.

Lemma PathQueryPrintPath_outcome (PATH_MAX : nat) (os : OS) (q : PathQuery)
    (a : Arguments) (out : list Output) (code : int) :
  PathQueryPrintPath PATH_MAX os (Some q) (Some a) = Some (out, code) ->
  (code = 0
   /\ exists e, out = [e]
                /\ is_detail e || is_brief e = true
                /\ is_detail e
                   = (PathListGetSize (Some (paths a)) =? 1)%nat
                     && (PathQueryGetLevel (Some q) =? 0))
  \/ (code <> 0 /\ forall e, In e out -> is_detail e || is_brief e = false).
Proof.
  intros Hpp.
  destruct (PathQueryPrintPath_cases PATH_MAX os q a)
    as [(fmt & args & H)
       | [(error & Hne & H) | (item & st & sb & ld & _ & _ & H)]];
    rewrite H in Hpp.
  - injection Hpp as <- <-. right.
    split; [discriminate | intros e [<- | []]; reflexivity].
  - injection Hpp as <- <-. right. split; [assumption | intros e []].
  - apply presented_Some in Hpp as [-> ->]. left.
    split; [reflexivity|]. eexists. split; [reflexivity|].
    destruct (rendering_presentation
                ((PathListGetSize (Some (paths a)) =? 1)%nat
                 && (PathQueryGetLevel (Some q) =? 0)) item st sb ld)
      as [Hd Hb].
    rewrite Hb, Hd. split; [apply orb_negb_r | reflexivity].
Qed.

Lemma PathQueryPrintDir_entry_unlisted (PATH_MAX : nat) (os : OS)
    (d : PathQuery) (a : Arguments) (entry : dirent) :
  listed a entry = false ->
  PathQueryPrintDir_entry PATH_MAX os d a entry = Some [].
Proof.
  unfold listed, PathQueryPrintDir_entry. rewrite !strcmp_eqb.
  destruct (negb (String.eqb (d_name entry) ".")
            && negb (String.eqb (d_name entry) "..")); [|reflexivity].
  cbn [andb]. destruct (recursive a && (d_type entry =? DT_DIR)); [|discriminate].
  reflexivity.
Qed.

(** What the step of the listing gives for an entry that is listed. *)
Lemma PathQueryPrintDir_entry_outcome (PATH_MAX : nat) (os : OS)
    (d : PathQuery) (a : Arguments) (entry : dirent) :
  listed a entry = true ->
  (exists e, PathQueryPrintDir_entry PATH_MAX os d a entry = Some [e]
             /\ is_detail e || is_brief e = true)
  \/ (exists out,
        PathQueryPrintDir_entry PATH_MAX os d a entry
        = Some (out ++ [Printf "error: path couldn't be worked on %s\n"
                          [ArgUndef]])
        /\ forall e, In e out -> is_detail e || is_brief e = false)
  \/ (PathQueryPrintDir_entry PATH_MAX os d a entry = None
      /\ PathListGetSize (Some (paths a)) = 1%nat
      /\ (lvl d + 1) mod 256 = 0).
Proof.
  intros Hl. unfold listed in Hl. unfold PathQueryPrintDir_entry.
  rewrite !strcmp_eqb.
  apply andb_prop in Hl as [Hl Hrec]. rewrite Hl.
  apply negb_true_iff in Hrec. rewrite Hrec.
  destruct (PathQueryCreateChild PATH_MAX (Some d) (Some (d_name entry)))
    as [c | code] eqn:Hc; [|discriminate].
  destruct (PathQueryPrintPath PATH_MAX os (Some c) (Some a))
    as [[out err]|] eqn:Hpp.
  - destruct (PathQueryPrintPath_outcome PATH_MAX os c a out err Hpp)
      as [(-> & e & -> & Hp & _) | (Hcode & Hno)].
    + left. exists e. split; [reflexivity | assumption].
    + right; left. exists out. apply Z.eqb_neq in Hcode. rewrite Hcode.
      split; [reflexivity | assumption].
  - right; right.
    destruct (PathQueryPrintPath_undefined PATH_MAX os c a Hpp)
      as (Hsize & Hlevel & _).
    split; [reflexivity | split; [exact Hsize|]].
    injection Hc as <-. exact Hlevel.
Qed.

Lemma PathQueryPrintDir_entries_defined (PATH_MAX : nat) (os : OS)
    (d : PathQuery) (a : Arguments) (namelist : list dirent) :
  PathListGetSize (Some (paths a)) <> 1%nat \/ (lvl d + 1) mod 256 <> 0 ->
  exists out,
    for_each (PathQueryPrintDir_entry PATH_MAX os d a)
      (List.filter (listed a) namelist) = Some out.
Proof.
  intros Hdefined. apply for_each_defined. intros entry Hin.
  apply List.filter_In in Hin as [_ Hl].
  destruct (PathQueryPrintDir_entry_outcome PATH_MAX os d a entry Hl)
    as [(e & -> & _) | [(out & -> & _) | (_ & Hsize & Hlevel)]];
    [eauto | eauto | tauto].
Qed.

Lemma PathQueryPrintDir_scanned (PATH_MAX : nat) (os : OS) (d : PathQuery)
    (a : Arguments) (namelist : list dirent) :
  scandir os (written (PathQueryGetPath PATH_MAX (Some d))) = Some namelist ->
  PathQueryPrintDir PATH_MAX os (Some d) (Some a)
  = match
      for_each (PathQueryPrintDir_entry PATH_MAX os d a)
        (List.filter (listed a) namelist)
    with
    | None => None
    | Some out =>
        Some
          ((if (1 <? PathListGetSize (Some (paths a)))%nat
            then [Printf "\n%s:\n"
                    [ArgS (written (PathQueryGetPath PATH_MAX (Some d)))]]
            else [])
           ++ out, 0)
    end.
Proof.
  intros Hscan. unfold PathQueryPrintDir. rewrite Hscan.
  rewrite <- (for_each_filter (PathQueryPrintDir_entry PATH_MAX os d a)
                (listed a) namelist); [reflexivity|].
  intros entry. apply PathQueryPrintDir_entry_unlisted.
Qed.

(** The call that [GetInfo] hands a root to is defined when, for a
    list of one path, the lookups of the detailed presentation
    answer. *)
Lemma GetInfo_call_defined (PATH_MAX : nat) (os : OS) (a : Arguments)
    (currpath : string) (root : PathQuery) :
  PathQueryCreate PATH_MAX (Some currpath) = Ok root ->
  (PathListGetSize (Some (paths a)) = 1%nat ->
   detail_lookups_answer PATH_MAX os a currpath) ->
  exists out err,
    (if PathQueryIsFile (BFFileSystemPathIsFile os) (Some root)
     then PathQueryPrintPath PATH_MAX os (Some root) (Some a)
     else PathQueryPrintDir PATH_MAX os (Some root) (Some a))
    = Some (out, err).
Proof.
  intros Hroot Hlook.
  destruct (PathQueryCreate_root _ _ _ Hroot) as (_ & Hlvl & _).
  destruct (PathQueryIsFile (BFFileSystemPathIsFile os) (Some root)).
  - destruct (PathQueryPrintPath PATH_MAX os (Some root) (Some a))
      as [[out err]|] eqn:Hpp; [eauto|].
    destruct (PathQueryPrintPath_undefined _ _ _ _ Hpp)
      as (Hsize & _ & item & st & ld & Hitem & Hstat & Hno).
    rewrite (Hlook Hsize root item st ld Hroot Hitem Hstat) in Hno.
    discriminate.
  - destruct (scandir os (written (PathQueryGetPath PATH_MAX (Some root))))
      as [namelist|] eqn:Hscan.
    + rewrite (PathQueryPrintDir_scanned _ _ _ _ _ Hscan).
      destruct (PathQueryPrintDir_entries_defined PATH_MAX os root a namelist)
        as [out ->]; [|eauto].
      right. rewrite Hlvl. discriminate.
    + unfold PathQueryPrintDir. rewrite Hscan. eauto.
Qed.

Lemma GetInfo_step_defined (PATH_MAX : nat) (os : OS) (a : Arguments)
    (i : nat) :
  (forall s, PathListGetPathAtIndex (Some (paths a)) i = Ok s ->
             (String.length s < PATH_MAX)%nat) ->
  (PathListGetSize (Some (paths a)) = 1%nat ->
   forall s, PathListGetPathAtIndex (Some (paths a)) i = Ok s ->
             detail_lookups_answer PATH_MAX os a s) ->
  exists o, GetInfo_step PATH_MAX os a i = Some o.
Proof.
  intros Hfits Hlook. unfold GetInfo_step.
  destruct (PathListGetPathAtIndex (Some (paths a)) i) as [s|c]; [|eauto].
  specialize (Hfits s eq_refl).
  assert (Hlook' : PathListGetSize (Some (paths a)) = 1%nat ->
                   detail_lookups_answer PATH_MAX os a s) by auto.
  destruct (Nat.leb_spec PATH_MAX (String.length s)); [lia|].
  destruct (PathQueryCreate PATH_MAX (Some s)) as [root|c] eqn:Hroot; [|eauto].
  destruct (GetInfo_call_defined _ _ _ _ _ Hroot Hlook') as (out & err & ->).
  destruct (negb (err =? 0)); eauto.
Qed.

(** C1. When [GetInfo] returns, every presentation it has written is
    the rendering of a node of the traversal: the root made from one of
    the paths of the list, or a child made from an entry of such a root;
    it is the detail presentation if and only if the path list has
    exactly one path, the root is a file and the node has level 0, and
    otherwise it is the brief one.  And every node of the traversal whose
    metadata and size are obtained is presented: a root that is a file,
    and each listed entry of a root that is a directory, in detail when
    the path list has exactly one path, the root is a file and the node
    has level 0, and in brief in every other case.  [GetInfo] returns when
    every path of the list is shorter than [PATH_MAX] and, for a list of
    one path, the lookups of the detailed presentation answer. *)
Theorem GetInfo_detail_iff (PATH_MAX : nat) (os : OS) (a : Arguments) :
  (forall (out : list Output) (code : int),
     GetInfo PATH_MAX os (Some a) = Some (out, code) ->
     (forall e : Output,
        In e out ->
        is_detail e || is_brief e = true ->
        exists (i : nat) (currpath : string) (root node : PathQuery),
          PathListGetPathAtIndex (Some (paths a)) i = Ok currpath
          /\ PathQueryCreate PATH_MAX (Some currpath) = Ok root
          /\ (node = root \/
              exists name,
                PathQueryCreateChild PATH_MAX (Some root) (Some name) = Ok node)
          /\ root_of node = root
          /\ PathQueryPrintPath PATH_MAX os (Some node) (Some a) = Some ([e], 0)
          /\ (is_detail e = true <->
              PathListGetSize (Some (paths a)) = 1%nat
              /\ PathQueryIsFile (BFFileSystemPathIsFile os) (Some root) = true
              /\ PathQueryGetLevel (Some node) = 0)
          /\ (is_brief e = true <->
              ~ (PathListGetSize (Some (paths a)) = 1%nat
                 /\ PathQueryIsFile (BFFileSystemPathIsFile os) (Some root) = true
                 /\ PathQueryGetLevel (Some node) = 0)))
     /\ (forall (i : nat) (currpath : string) (root node : PathQuery)
           (st : struct_stat) (linkdesc : string),
           PathListGetPathAtIndex (Some (paths a)) i = Ok currpath ->
           PathQueryCreate PATH_MAX (Some currpath) = Ok root ->
           (if PathQueryIsFile (BFFileSystemPathIsFile os) (Some root) then
              node = root
            else
              exists (namelist : list dirent) (entry : dirent),
                scandir os (written (PathQueryGetPath PATH_MAX (Some root)))
                = Some namelist
                /\ In entry namelist
                /\ listed a entry = true
                /\ PathQueryCreateChild PATH_MAX (Some root)
                     (Some (d_name entry)) = Ok node) ->
           PathQueryPrintPath_stat PATH_MAX os
             (written (PathQueryGetPath PATH_MAX (Some node)))
           = inr (st, linkdesc) ->
           fst (BFByteGetString os (st_size st mod 2 ^ 64)) = 0 ->
           exists item : string,
             GetPrintablePath PATH_MAX os (Some node) (Some a) = ([], Ok item)
             /\ In (rendering
                      ((PathListGetSize (Some (paths a)) =? 1)%nat
                       && PathQueryIsFile (BFFileSystemPathIsFile os) (Some root)
                       && (PathQueryGetLevel (Some node) =? 0))
                      item st
                      (snd (BFByteGetString os (st_size st mod 2 ^ 64)))
                      linkdesc)
                  out))
  /\ ((forall (i : nat) (s : string),
         PathListGetPathAtIndex (Some (paths a)) i = Ok s ->
         (String.length s < PATH_MAX)%nat) ->
      (PathListGetSize (Some (paths a)) = 1%nat ->
       forall (i : nat) (s : string),
         PathListGetPathAtIndex (Some (paths a)) i = Ok s ->
         detail_lookups_answer PATH_MAX os a s) ->
      exists out, GetInfo PATH_MAX os (Some a) = Some (out, 0)).
Proof.
  split.
  2:{ intros Hfits Hlook. unfold GetInfo.
      destruct (for_each_defined (GetInfo_step PATH_MAX os a)
                  (seq 0 (PathListGetSize (Some (paths a))))) as [out ->];
        [|eauto].
      intros i _. apply GetInfo_step_defined; [apply Hfits|].
      intros Hone s Hs. exact (Hlook Hone i s Hs). }
  intros out code. unfold GetInfo.
  destruct (for_each (GetInfo_step PATH_MAX os a)
              (seq 0 (PathListGetSize (Some (paths a))))) as [out'|] eqn:Hloop;
    [|discriminate].
  intros [= <- <-]. split.
  - intros e Hin He.
    destruct (for_each_app_out _ _ _ Hloop e Hin) as (i & o & _ & Hstep & Ho).
    destruct (PathListGetPathAtIndex (Some (paths a)) i)
      as [currpath|c] eqn:Hat.
    2:{ unfold GetInfo_step in Hstep. rewrite Hat in Hstep.
        injection Hstep as <-. destruct Ho as [<- | []]. discriminate. }
    destruct (PathQueryCreate PATH_MAX (Some currpath)) as [root|c] eqn:Hroot;
      [|discriminate].
    destruct (PathQueryCreate_root _ _ _ Hroot) as (Hparent & Hlvl & Hlevel).
    destruct (GetInfo_step_call _ _ _ _ _ _ _ Hat Hroot Hstep)
      as (out & err & Hcall & Htail).
    pose proof (In_presentation_tail _ _ _ _ _ _ Htail Ho He) as Hin'.
    exists i, currpath, root.
    destruct (PathQueryIsFile (BFFileSystemPathIsFile os) (Some root))
      eqn:Hfile.
    + (* the root is a file and is rendered itself *)
      destruct (PathQueryPrintPath_presentation _ _ _ _ _ _ _ Hcall Hin' He)
        as (-> & -> & Hd & Hb).
      exists root.
      split; [exact Hat | split; [exact Hroot | split; [now left | split]]].
      { destruct root as [s up l]; simpl in *. now subst up. }
      split; [exact Hcall|].
      apply presentation_iff with (l := PathQueryGetLevel (Some root)); auto.
    + (* the root is a directory: its entries are rendered *)
      unfold PathQueryPrintDir in Hcall.
      destruct (scandir os (written (PathQueryGetPath PATH_MAX (Some root))))
        as [namelist|].
      2:{ injection Hcall as <- <-. destruct Hin' as [<- | []]. discriminate. }
      destruct (for_each (PathQueryPrintDir_entry PATH_MAX os root a) namelist)
        as [listing|] eqn:Hdir; [|discriminate].
      injection Hcall as <- <-.
      apply in_app_or in Hin' as [Hin' | Hin'].
      { match type of Hin' with context [if ?c then _ else _] =>
          destruct c
        end; [destruct Hin' as [<- | []]; discriminate | destruct Hin']. }
      destruct (for_each_app_out _ _ _ Hdir e Hin')
        as (entry & o' & _ & Hentry & Ho').
      unfold PathQueryPrintDir_entry in Hentry.
      destruct (negb (strcmp (d_name entry) "." =? 0)
                && negb (strcmp (d_name entry) ".." =? 0));
        [|injection Hentry as <-; destruct Ho'].
      destruct (PathQueryCreateChild PATH_MAX (Some root) (Some (d_name entry)))
        as [node|c] eqn:Hchild;
        [|injection Hentry as <-; destruct Ho' as [<- | []]; discriminate].
      destruct (recursive a && (d_type entry =? DT_DIR));
        [injection Hentry as <-; destruct Ho'|].
      destruct (PathQueryPrintPath PATH_MAX os (Some node) (Some a))
        as [[out err]|] eqn:Hpp; [|discriminate].
      pose proof (In_presentation_tail _ _ _ _ _ _ Hentry Ho' He) as Hin''.
      destruct (PathQueryPrintPath_presentation _ _ _ _ _ _ _ Hpp Hin'' He)
        as (-> & -> & Hd & Hb).
      destruct (root_of_child _ _ _ _ Hparent Hchild) as [Hr Hl].
      rewrite Hlvl in Hl. change ((0 + 1) mod 256) with 1 in Hl.
      exists node.
      split; [exact Hat | split; [exact Hroot | split; [right; eauto | split]]].
      { exact Hr. }
      split; [exact Hpp|].
      apply presentation_iff with (l := PathQueryGetLevel (Some node)); auto.
      rewrite Hl. discriminate.
  - intros i currpath root node st linkdesc Hat Hroot Hnode Hstat Hsize.
    destruct (PathQueryCreate_root _ _ _ Hroot) as (Hparent & Hlvl & Hlevel).
    assert (Hi : In i (seq 0 (PathListGetSize (Some (paths a))))).
    { apply in_seq. apply PathListGetPathAtIndex_Ok in Hat. lia. }
    destruct (for_each_body_out _ _ _ Hloop i Hi) as (o & Hstep & Ho).
    destruct (GetInfo_step_call _ _ _ _ _ _ _ Hat Hroot Hstep)
      as (out & err & Hcall & Htail).
    destruct (PathQueryPrintPath_renders PATH_MAX os node a st linkdesc
                Hstat Hsize) as (item & Hitem & Hpp).
    exists item. split; [exact Hitem|].
    destruct (PathQueryIsFile (BFFileSystemPathIsFile os) (Some root)).
    + subst node. rewrite Hpp in Hcall.
      apply presented_Some in Hcall as [-> ->].
      injection Htail as <-. apply Ho. rewrite andb_true_r. now left.
    + destruct Hnode as (namelist & entry & Hscan & Hentry & Hl & Hchild).
      destruct (root_of_child _ _ _ _ Hparent Hchild) as [_ Hlv].
      rewrite Hlvl in Hlv. change ((0 + 1) mod 256) with 1 in Hlv.
      rewrite Hlv in Hpp |- *. cbn [Z.eqb] in Hpp |- *.
      rewrite !andb_false_r in Hpp |- *.
      unfold PathQueryPrintDir in Hcall. rewrite Hscan in Hcall.
      destruct (for_each (PathQueryPrintDir_entry PATH_MAX os root a) namelist)
        as [listing|] eqn:Hdir; [|discriminate].
      injection Hcall as <- <-. injection Htail as <-.
      destruct (for_each_body_out _ _ _ Hdir entry Hentry) as (o' & Ho' & Hin).
      destruct (PathQueryPrintDir_entry_call _ _ _ _ _ _ _ Hl Hchild Ho')
        as (out & err & Hcall & Htail).
      rewrite Hpp in Hcall. apply presented_Some in Hcall as [-> ->].
      injection Htail as <-.
      apply Ho, in_or_app. right. apply Hin. now left.
Qed.

Lemma GetInfo_detail_iff_witness :
  let one := example_arguments ["link"] [] in
  let two := example_arguments ["a"; "link"] [] in
  let dir := example_arguments [] ["dir"] in
  let link := mkPathQuery "link" None 0 in
  let b := mkPathQuery "b.txt" (Some (mkPathQuery "dir" None 0)) 1 in
  let detail_link :=
    PathQueryPrintPathDetail "link" "l" 511 1 2 3 "4 b" ANSI_COLOR_CYAN
      " -> target" 1000 1000 in
  let brief_link :=
    PathQueryPrintPathBrief "link" "l" 511 1 "4 b" ANSI_COLOR_CYAN
      " -> target" in
  let brief_a :=
    PathQueryPrintPathBrief "a" "f" 420 10 "100 b" ANSI_COLOR_GREEN "" in
  let brief_a_txt :=
    PathQueryPrintPathBrief "a.txt" "f" 420 10 "100 b" ANSI_COLOR_GREEN "" in
  let brief_b_txt :=
    PathQueryPrintPathBrief "b.txt" "f" 420 10 "100 b" ANSI_COLOR_GREEN "" in
  (* one path, a file: in detail *)
  (GetInfo 4096 example_os (Some one) = Some ([detail_link], 0)
   /\ (exists item,
         GetPrintablePath 4096 example_os (Some link) (Some one)
         = ([], Ok item)
         /\ In (rendering true item example_link "4 b" " -> target")
              [detail_link])
   /\ exists (i : nat) (currpath : string) (root node : PathQuery),
        PathListGetPathAtIndex (Some (paths one)) i = Ok currpath
        /\ PathQueryCreate 4096 (Some currpath) = Ok root
        /\ (node = root \/
            exists name,
              PathQueryCreateChild 4096 (Some root) (Some name) = Ok node)
        /\ root_of node = root
        /\ PathQueryPrintPath 4096 example_os (Some node) (Some one)
           = Some ([detail_link], 0)
        /\ (is_detail detail_link = true <->
            PathListGetSize (Some (paths one)) = 1%nat
            /\ PathQueryIsFile (BFFileSystemPathIsFile example_os) (Some root)
               = true
            /\ PathQueryGetLevel (Some node) = 0)
        /\ (is_brief detail_link = true <->
            ~ (PathListGetSize (Some (paths one)) = 1%nat
               /\ PathQueryIsFile (BFFileSystemPathIsFile example_os)
                    (Some root) = true
               /\ PathQueryGetLevel (Some node) = 0)))
  (* two paths, both files: in brief *)
  /\ (GetInfo 4096 example_os (Some two) = Some ([brief_a; brief_link], 0)
      /\ exists item,
           GetPrintablePath 4096 example_os (Some link) (Some two)
           = ([], Ok item)
           /\ In (rendering false item example_link "4 b" " -> target")
                [brief_a; brief_link])
  (* one path, a directory: its entries in brief *)
  /\ (GetInfo 4096 example_os (Some dir) = Some ([brief_a_txt; brief_b_txt], 0)
      /\ exists item,
           GetPrintablePath 4096 example_os (Some b) (Some dir) = ([], Ok item)
           /\ In (rendering false item example_target "100 b" "")
                [brief_a_txt; brief_b_txt])
  (* the query of one path returns *)
  /\ (forall (i : nat) (s : string),
        PathListGetPathAtIndex (Some (paths one)) i = Ok s ->
        (String.length s < 4096)%nat)
  /\ (PathListGetSize (Some (paths one)) = 1%nat ->
      forall (i : nat) (s : string),
        PathListGetPathAtIndex (Some (paths one)) i = Ok s ->
        detail_lookups_answer 4096 example_os one s)
  /\ exists out, GetInfo 4096 example_os (Some one) = Some (out, 0).
Proof.
  intros one two dir link b detail_link brief_link brief_a brief_a_txt
    brief_b_txt.
  assert (H1 : GetInfo 4096 example_os (Some one) = Some ([detail_link], 0))
    by (vm_compute; reflexivity).
  assert (H2 : GetInfo 4096 example_os (Some two)
               = Some ([brief_a; brief_link], 0))
    by (vm_compute; reflexivity).
  assert (H3 : GetInfo 4096 example_os (Some dir)
               = Some ([brief_a_txt; brief_b_txt], 0))
    by (vm_compute; reflexivity).
  assert (Hfits : forall (i : nat) (s : string),
            PathListGetPathAtIndex (Some (paths one)) i = Ok s ->
            (String.length s < 4096)%nat).
  { intros [|i] s; [|discriminate]. intros [= <-]. cbv. lia. }
  assert (Hlook : PathListGetSize (Some (paths one)) = 1%nat ->
            forall (i : nat) (s : string),
              PathListGetPathAtIndex (Some (paths one)) i = Ok s ->
              detail_lookups_answer 4096 example_os one s).
  { intros _ [|i] s; [|discriminate]. intros [= <-].
    intros root item st linkdesc [= <-] [= <-] [= <- _]. reflexivity. }
  split; [split; [exact H1 | split]
         | split; [split; [exact H2|]
                  | split; [split; [exact H3|]
                           | split; [exact Hfits | split; [exact Hlook|]]]]].
  - exact (proj2 (proj1 (GetInfo_detail_iff 4096 example_os one) _ _ H1)
             0%nat "link" link link example_link " -> target"
             eq_refl eq_refl eq_refl eq_refl eq_refl).
  - apply (proj1 (proj1 (GetInfo_detail_iff 4096 example_os one) _ _ H1) detail_link);
      [now left | reflexivity].
  - exact (proj2 (proj1 (GetInfo_detail_iff 4096 example_os two) _ _ H2)
             1%nat "link" link link example_link " -> target"
             eq_refl eq_refl eq_refl eq_refl eq_refl).
  - refine (proj2 (proj1 (GetInfo_detail_iff 4096 example_os dir) _ _ H3)
              0%nat "dir" (mkPathQuery "dir" None 0) b example_target ""
              eq_refl eq_refl _ eq_refl eq_refl).
    exists [mkDirent "." 4; mkDirent ".." 4; mkDirent "a.txt" 8;
            mkDirent "b.txt" 8], (mkDirent "b.txt" 8).
    split; [reflexivity | split; [|split; reflexivity]].
    do 3 right. now left.
  - exact (proj2 (GetInfo_detail_iff 4096 example_os one) Hfits Hlook).
Defined.

(** What a directory listing and a query of two files write: brief
    presentations only. *)
Example GetInfo_directory :
  GetInfo 4096 example_os (Some (example_arguments [] ["dir"]))
  = Some
      ([PathQueryPrintPathBrief "a.txt" "f" 420 10 "100 b" ANSI_COLOR_GREEN "";
        PathQueryPrintPathBrief "b.txt" "f" 420 10 "100 b" ANSI_COLOR_GREEN ""],
       0).
Proof. vm_compute. reflexivity. Qed.

Example GetInfo_two_files :
  GetInfo 4096 example_os (Some (example_arguments ["a"; "link"] []))
  = Some
      ([PathQueryPrintPathBrief "a" "f" 420 10 "100 b" ANSI_COLOR_GREEN "";
        PathQueryPrintPathBrief "link" "l" 511 1 "4 b" ANSI_COLOR_CYAN
          " -> target"],
       0).
Proof. vm_compute. reflexivity. Qed.

(** The one path whose detailed presentation cannot resolve it: the
    behaviour is undefined. *)
Example GetInfo_dangling_alone :
  GetInfo 4096 example_os (Some (example_arguments ["dangling"] [])) = None.
Proof. vm_compute. reflexivity. Qed.

(** ** Symlinks *)

Lemma S_ISLNK_type (st : struct_stat) :
  S_ISLNK (st_mode st) = true -> StatGetModeType st = STAT_MOD_TYPE_SYMLINK.
Proof.
  unfold S_ISLNK, StatGetModeType. intros H%Z.eqb_eq. now rewrite H.
Qed.

(** The metadata stage on a symlink: the link-aware metadata and the
    description of the target. *)
Lemma PathQueryPrintPath_stat_symlink (PATH_MAX : nat) (os : OS)
    (path : string) (st : struct_stat) :
  lstat os path = Ok st ->
  S_ISLNK (st_mode st) = true ->
  PathQueryPrintPath_stat PATH_MAX os path
  = inr (st, snprintf PATH_MAX
               (" -> " +:+ match readlink os path with
                           | None => "?"
                           | Some target => string_take PATH_MAX target
                           end)).
Proof.
  intros Hl Hs. unfold PathQueryPrintPath_stat. now rewrite Hl, Hs.
Qed.

(** The follow-symlink fetch is made for the entries that are not
    symlinks, and its result is then the metadata used. *)
Lemma PathQueryPrintPath_stat_other (PATH_MAX : nat) (os : OS)
    (path : string) (st st' : struct_stat) :
  lstat os path = Ok st ->
  S_ISLNK (st_mode st) = false ->
  stat os path = Ok st' ->
  PathQueryPrintPath_stat PATH_MAX os path = inr (st', EmptyString).
Proof.
  intros Hl Hs Hf. unfold PathQueryPrintPath_stat. now rewrite Hl, Hs, Hf.
Qed.

(** C2, as the code has it.  For a path whose link-aware metadata
    indicates a symlink no follow-symlink fetch is made: the metadata
    stage answers the link-aware metadata whatever the follow fetch would
    answer, so the permission bits, the size and the three timestamps of
    the record are the link's own; the type tag is symlink, and the call
    reaches the presentation of the entry from that metadata: the brief
    one, or the detailed one when the list has one path and the node
    level 0, which is written unless one of its lookups does not
    answer. *)
Theorem symlink_keeps_link_metadata (PATH_MAX : nat) (os : OS)
    (path : string) (st : struct_stat) :
  lstat os path = Ok st ->
  S_ISLNK (st_mode st) = true ->
  (forall follow : string -> result struct_stat,
     exists r linkdesc,
       PathQueryPrintPath_stat PATH_MAX (with_stat os follow) path
       = inr (r, linkdesc)
       /\ same_attributes r st
       /\ StatGetModeType r = STAT_MOD_TYPE_SYMLINK)
  /\ forall (q : PathQuery) (a : Arguments),
       written (PathQueryGetPath PATH_MAX (Some q)) = path ->
       fst (BFByteGetString os (st_size st mod 2 ^ 64)) = 0 ->
       exists item linkdesc,
         GetPrintablePath PATH_MAX os (Some q) (Some a) = ([], Ok item)
         /\ PathQueryPrintPath PATH_MAX os (Some q) (Some a)
            = presented os
                ((PathListGetSize (Some (paths a)) =? 1)%nat
                 && (PathQueryGetLevel (Some q) =? 0))
                item st (snd (BFByteGetString os (st_size st mod 2 ^ 64)))
                linkdesc.
Proof.
  intros Hl Hs. split.
  - intros follow. exists st. eexists. split; [|split].
    + now apply PathQueryPrintPath_stat_symlink.
    + repeat split.
    + now apply S_ISLNK_type.
  - intros q a Hpath Hsize.
    pose proof (PathQueryPrintPath_stat_symlink PATH_MAX os path st Hl Hs) as Hstat.
    rewrite <- Hpath in Hstat.
    destruct (PathQueryPrintPath_renders PATH_MAX os q a st _ Hstat Hsize)
      as (item & Hitem & Hpp).
    eauto.
Qed.

Lemma symlink_keeps_link_metadata_witness :
  lstat example_os "link" = Ok example_link
  /\ S_ISLNK (st_mode example_link) = true
  /\ (exists r linkdesc,
        PathQueryPrintPath_stat 4096
          (with_stat example_os (fun _ => Ok example_target)) "link"
        = inr (r, linkdesc)
        /\ same_attributes r example_link
        /\ StatGetModeType r = STAT_MOD_TYPE_SYMLINK)
  /\ (exists item linkdesc,
        PathQueryPrintPath 4096 example_os
          (Some (mkPathQuery "link" None 0))
          (Some (example_arguments ["a"; "link"] []))
        = Some ([rendering false item example_link "4 b" linkdesc], 0))
  /\ exists item linkdesc,
       PathQueryPrintPath 4096 example_os
         (Some (mkPathQuery "link" None 0))
         (Some (example_arguments ["link"] []))
       = Some ([rendering true item example_link "4 b" linkdesc], 0).
Proof.
  assert (Hl : lstat example_os "link" = Ok example_link) by reflexivity.
  assert (Hs : S_ISLNK (st_mode example_link) = true) by reflexivity.
  split; [exact Hl | split; [exact Hs | split; [|split]]].
  - exact (proj1 (symlink_keeps_link_metadata 4096 example_os "link"
                    example_link Hl Hs) (fun _ => Ok example_target)).
  - destruct (proj2 (symlink_keeps_link_metadata 4096 example_os "link"
                       example_link Hl Hs)
                (mkPathQuery "link" None 0)
                (example_arguments ["a"; "link"] []) eq_refl eq_refl)
      as (item & linkdesc & _ & H).
    exists item, linkdesc. exact H.
  - destruct (proj2 (symlink_keeps_link_metadata 4096 example_os "link"
                       example_link Hl Hs)
                (mkPathQuery "link" None 0)
                (example_arguments ["link"] []) eq_refl eq_refl)
      as (item & linkdesc & Hitem & H).
    exists item, linkdesc. injection Hitem as <-. exact H.
Defined.

(** C2 as stated fails: for the symlink ["link"], whose follow fetch
    succeeds, the record has the link's permission bits 0777, size 4 and
    timestamps 1, 2, 3, not the target's 0644, 100 and 10, 20, 30. *)
Lemma symlink_not_followed :
  ~ (forall (os : OS) (path : string) (st st' : struct_stat),
       lstat os path = Ok st ->
       S_ISLNK (st_mode st) = true ->
       stat os path = Ok st' ->
       exists r linkdesc,
         PathQueryPrintPath_stat 4096 os path = inr (r, linkdesc)
         /\ same_attributes r st'
         /\ StatGetModeType r = STAT_MOD_TYPE_SYMLINK).
Proof.
  intros H.
  destruct (H example_os "link" example_link example_target
              eq_refl eq_refl eq_refl) as (r & linkdesc & Hr & Hsame & _).
  vm_compute in Hr. injection Hr as <- _.
  destruct Hsame as (_ & Hsize & _). discriminate Hsize.
Qed.

(** C3. For a symlink whose target text cannot be read the metadata
    stage does not fail: it answers the link-aware metadata of the
    symlink, with ["?"] as the target text of the link description, and
    the call reaches the presentation of the entry from them: the brief
    one, or the detailed one when the list has one path and the node
    level 0, which is written unless one of its lookups does not
    answer. *)
Theorem symlink_unreadable_target (PATH_MAX : nat) (os : OS)
    (path : string) (st : struct_stat) :
  (6 <= PATH_MAX)%nat ->
  lstat os path = Ok st ->
  S_ISLNK (st_mode st) = true ->
  readlink os path = None ->
  PathQueryPrintPath_stat PATH_MAX os path = inr (st, " -> " +:+ "?")
  /\ forall (q : PathQuery) (a : Arguments),
       written (PathQueryGetPath PATH_MAX (Some q)) = path ->
       fst (BFByteGetString os (st_size st mod 2 ^ 64)) = 0 ->
       exists item,
         GetPrintablePath PATH_MAX os (Some q) (Some a) = ([], Ok item)
         /\ PathQueryPrintPath PATH_MAX os (Some q) (Some a)
            = presented os
                ((PathListGetSize (Some (paths a)) =? 1)%nat
                 && (PathQueryGetLevel (Some q) =? 0))
                item st (snd (BFByteGetString os (st_size st mod 2 ^ 64)))
                (" -> " +:+ "?").
Proof.
  intros Hmax Hl Hs Hr.
  assert (Hstat : PathQueryPrintPath_stat PATH_MAX os path
                  = inr (st, " -> " +:+ "?")).
  { rewrite (PathQueryPrintPath_stat_symlink PATH_MAX os path st Hl Hs), Hr.
    rewrite snprintf_fits; [reflexivity | simpl; lia]. }
  split; [exact Hstat|].
  intros q a Hpath Hsize. rewrite <- Hpath in Hstat.
  destruct (PathQueryPrintPath_renders PATH_MAX os q a st _ Hstat Hsize)
    as (item & Hitem & Hpp).
  eauto.
Qed.

Lemma symlink_unreadable_target_witness :
  (6 <= 4096)%nat
  /\ lstat example_os "dangling" = Ok example_link
  /\ S_ISLNK (st_mode example_link) = true
  /\ readlink example_os "dangling" = None
  /\ stat example_os "dangling" = Err 2
  /\ PathQueryPrintPath_stat 4096 example_os "dangling"
     = inr (example_link, " -> ?")
  /\ exists item,
       PathQueryPrintPath 4096 example_os
         (Some (mkPathQuery "dangling" None 0))
         (Some (example_arguments ["a"; "dangling"] []))
       = Some ([rendering false item example_link "4 b" " -> ?"], 0).
Proof.
  assert (Hmax : (6 <= 4096)%nat) by lia.
  assert (Hl : lstat example_os "dangling" = Ok example_link) by reflexivity.
  assert (Hs : S_ISLNK (st_mode example_link) = true) by reflexivity.
  assert (Hr : readlink example_os "dangling" = None) by reflexivity.
  repeat (split; [first [exact Hmax | exact Hl | exact Hs | exact Hr | reflexivity]|]).
  destruct (proj2 (symlink_unreadable_target 4096 example_os "dangling"
                     example_link Hmax Hl Hs Hr)
              (mkPathQuery "dangling" None 0)
              (example_arguments ["a"; "dangling"] []) eq_refl eq_refl)
    as (item & _ & H).
  exists item. exact H.
Defined.


(** * Further properties *)

(** ** Normal form of a stripped text *)

#[local] Instance ends_with_slash_dec (s : string) : Decision (ends_with_slash s).
Proof. unfold ends_with_slash. apply _. Defined.

Lemma ends_with_slash_app (a c : string) :
  c <> EmptyString -> (ends_with_slash (a +:+ c) <-> ends_with_slash c).
Proof.
  intros Hc. unfold ends_with_slash.
  assert (Hlen : (1 <= String.length c)%nat)
    by (destruct c; simpl; [congruence | lia]).
  rewrite string_length_app.
  replace (String.length a + String.length c - 1)%nat
    with (String.length a + (String.length c - 1))%nat by lia.
  now rewrite string_get_app_r.
Qed.

Lemma RemoveTrailingForwardSlashes_loop_normal (t : string) :
  exists (r : string) (k : nat),
    RemoveTrailingForwardSlashes_loop t (String.length t - 1) = r
    /\ t = r +:+ slashes k
    /\ normal_segment r
    /\ RemoveTrailingForwardSlashes_loop r (String.length r - 1) = r.
Proof.
  destruct (decide (ends_with_slash t)) as [Ht | Ht].
  - destruct (ends_with_slash_split t Ht) as [[k ->] | (s & k & -> & Hs & He)].
    + exists "/", k. rewrite string_length_app, string_length_slashes.
      rewrite RemoveTrailingForwardSlashes_loop_app by discriminate.
      repeat split. now right.
    + exists s, (S k). rewrite string_length_app, string_length_slashes.
      rewrite RemoveTrailingForwardSlashes_loop_app by assumption.
      rewrite RemoveTrailingForwardSlashes_loop_stop by assumption.
      repeat split. now left.
  - exists t, 0%nat. rewrite RemoveTrailingForwardSlashes_loop_stop by assumption.
    repeat split; [now rewrite string_app_empty_r | now left].
Qed.

(** X1. For every text, trailing-slash stripping returns a prefix [r] of
    the text that is followed in it by slashes only; [r] does not end in
    a slash unless it is ["/"], and stripping [r] again returns [r]. *)
Theorem RemoveTrailingForwardSlashes_normal (t : string) :
  exists (r : string) (k : nat),
    RemoveTrailingForwardSlashes (Some t) = Ok r
    /\ t = r +:+ slashes k
    /\ normal_segment r
    /\ RemoveTrailingForwardSlashes (Some r) = Ok r.
Proof.
  destruct (RemoveTrailingForwardSlashes_loop_normal t) as (r & k & H1 & H2 & H3 & H4).
  exists r, k. unfold RemoveTrailingForwardSlashes. rewrite H1, H4. auto.
Qed.

Lemma written_RemoveTrailingForwardSlashes_normal (t : string) :
  normal_segment (written (RemoveTrailingForwardSlashes (Some t))).
Proof.
  destruct (RemoveTrailingForwardSlashes_loop_normal t) as (r & k & H1 & _ & H3 & _).
  unfold RemoveTrailingForwardSlashes, written. now rewrite H1.
Qed.

Lemma ends_with_slash_dot_slash (rest : string) :
  ends_with_slash rest -> ends_with_slash ("./" +:+ rest).
Proof.
  intros H. apply ends_with_slash_app; [|assumption].
  intros ->. discriminate H.
Qed.

Lemma written_RemoveLeadingPeriodAndForwardSlashes_normal (t : string) :
  normal_segment t ->
  normal_segment (written (RemoveLeadingPeriodAndForwardSlashes (Some t))).
Proof.
  intros Ht.
  destruct (RemoveLeadingPeriodAndForwardSlashes_cases t) as [[rest ->] | ->];
    [|exact Ht].
  rewrite RemoveLeadingPeriodAndForwardSlashes_strip. simpl.
  destruct Ht as [Ht | Ht]; [|discriminate Ht].
  left. intros H. apply Ht. now apply ends_with_slash_dot_slash.
Qed.

(** ** Nodes *)

Lemma PathQueryCreate_fields (PATH_MAX : nat) (path : string) (root : PathQuery) :
  PathQueryCreate PATH_MAX (Some path) = Ok root ->
  p root = written (RemoveTrailingForwardSlashes (Some (strncpy path PATH_MAX)))
  /\ parent root = None /\ lvl root = 0.
Proof. intros [= <-]. repeat split. Qed.

Lemma PathQueryCreateChild_fields (PATH_MAX : nat) (q c : PathQuery)
    (leaf : string) :
  PathQueryCreateChild PATH_MAX (Some q) (Some leaf) = Ok c ->
  p c = written (RemoveLeadingPeriodAndForwardSlashes
                   (Some (written (RemoveTrailingForwardSlashes
                                     (Some (strncpy leaf PATH_MAX))))))
  /\ parent c = Some q /\ lvl c = (lvl q + 1) mod 256.
Proof. intros [= <-]. repeat split. Qed.

Lemma segments_root (q : PathQuery) : parent q = None -> segments q = [p q].
Proof. destruct q as [s up l]. simpl. now intros ->. Qed.

Lemma segments_child (q c : PathQuery) :
  parent c = Some q -> segments c = segments q ++ [p c].
Proof. destruct c as [s up l]. simpl. now intros ->. Qed.

Lemma root_of_child_eq (q c : PathQuery) :
  parent c = Some q -> root_of c = root_of q.
Proof. destruct c as [s up l]. simpl. now intros ->. Qed.

Lemma built_invariant_lemma (PATH_MAX : nat) (q : PathQuery) :
  built PATH_MAX q ->
  0 <= lvl q < 256
  /\ lvl q = Z.of_nat (length (segments q) - 1) mod 256
  /\ Forall normal_segment (segments q)
  /\ parent (root_of q) = None
  /\ lvl (root_of q) = 0.
Proof.
  induction 1 as [path root Hroot | q leaf c Hq IH Hc].
  - destruct (PathQueryCreate_fields _ _ _ Hroot) as (Hp & Hup & Hl).
    rewrite (segments_root _ Hup), Hl.
    assert (Hr : root_of root = root)
      by (destruct root as [s up l]; simpl in *; now subst up).
    rewrite Hr, Hup, Hl. simpl. repeat split; try lia.
    apply Forall_cons_2; [|constructor].
    rewrite Hp. apply written_RemoveTrailingForwardSlashes_normal.
  - destruct IH as (Hrange & Hdepth & Hsegs & Hup & Hl).
    destruct (PathQueryCreateChild_fields _ _ _ _ Hc) as (Hp & Hpar & Hlvl).
    rewrite (segments_child _ _ Hpar), (root_of_child_eq _ _ Hpar), Hlvl.
    repeat split; try assumption.
    + apply Z.mod_pos_bound. lia.
    + apply Z.mod_pos_bound. lia.
    + rewrite length_app. simpl. rewrite Hdepth.
      assert (Hlen : (1 <= length (segments q))%nat).
      { destruct q as [s [up|] l]; simpl; [rewrite length_app; simpl|]; lia. }
      replace (Z.of_nat (length (segments q) + 1 - 1))
        with (Z.of_nat (length (segments q) - 1) + 1) by lia.
      now rewrite Zplus_mod_idemp_l.
    + apply Forall_app. split; [assumption|].
      apply Forall_cons_2; [|constructor].
      rewrite Hp. apply written_RemoveLeadingPeriodAndForwardSlashes_normal,
                    written_RemoveTrailingForwardSlashes_normal.
Qed.

(** X2. Every node made by [PathQueryCreate] and [PathQueryCreateChild]
    has a level within an unsigned byte, equal to its depth modulo 256;
    none of the segments of its chain ends in a slash, unless it is
    ["/"]; and the root of its chain has level 0 and no parent. *)
Theorem built_invariant (PATH_MAX : nat) (q : PathQuery) :
  built PATH_MAX q ->
  0 <= lvl q < 256
  /\ lvl q = Z.of_nat (length (segments q) - 1) mod 256
  /\ Forall normal_segment (segments q)
  /\ parent (root_of q) = None
  /\ lvl (root_of q) = 0.
Proof. apply built_invariant_lemma. Qed.

Lemma built_invariant_witness :
  built 4096 (mkPathQuery "a" (Some (mkPathQuery "/" None 0)) 1)
  /\ 0 <= 1 < 256
  /\ 1 = Z.of_nat (length ["/"; "a"] - 1) mod 256
  /\ Forall normal_segment ["/"; "a"].
Proof.
  assert (H : built 4096 (mkPathQuery "a" (Some (mkPathQuery "/" None 0)) 1)).
  { apply (built_child 4096 (mkPathQuery "/" None 0) "./a//").
    - apply (built_root 4096 "///"). reflexivity.
    - reflexivity. }
  split; [exact H|].
  destruct (built_invariant 4096 _ H) as (H1 & H2 & H3 & _).
  split; [exact H1 | split; [exact H2 | exact H3]].
Defined.

(** ** Full paths of the nodes of a listing *)

Lemma PathQueryGetPath_fits (PATH_MAX : nat) (q : PathQuery) :
  (String.length (join_segments (segments q)) < PATH_MAX)%nat ->
  PathQueryGetPath PATH_MAX (Some q)
  = Ok (RemoveTrailingForwardSlashes_loop (join_segments (segments q))
          (String.length (join_segments (segments q)) - 1)).
Proof.
  intros Hfit. unfold PathQueryGetPath.
  rewrite <- (string_app_empty_r (join_segments (segments q))) in Hfit.
  rewrite (PathQueryGetPath_loop_joins PATH_MAX q EmptyString Hfit).
  rewrite string_app_empty_r in *.
  unfold RemoveTrailingForwardSlashes, written. f_equal.
  apply strncpy_fits.
  pose proof (RemoveTrailingForwardSlashes_loop_length
                (join_segments (segments q))
                (String.length (join_segments (segments q)) - 1)).
  lia.
Qed.

Lemma RemoveTrailingForwardSlashes_loop_one_slash (s : string) :
  s <> EmptyString -> normal_segment s ->
  RemoveTrailingForwardSlashes_loop (s +:+ "/") (String.length (s +:+ "/") - 1) = s.
Proof.
  intros Hs Hn. rewrite string_length_app. simpl String.length.
  change "/" with (slashes 1).
  rewrite RemoveTrailingForwardSlashes_loop_app by assumption.
  destruct Hn as [Hn | ->]; [|reflexivity].
  now apply RemoveTrailingForwardSlashes_loop_stop.
Qed.

(** X3. The full path of a root node is its segment, and ["/"] when the
    segment is empty; the full path of a child of a root is the segment
    of the root, a slash and the segment of the child, when neither
    segment is empty and the child's is not ["/"]; both as long as the
    text and one more slash fit a buffer of [PATH_MAX] bytes. *)
Theorem PathQueryGetPath_listing (PATH_MAX : nat) (path : string)
    (root : PathQuery) :
  PathQueryCreate PATH_MAX (Some path) = Ok root ->
  ((String.length (p root) + 1 < PATH_MAX)%nat ->
   PathQueryGetPath PATH_MAX (Some root)
   = Ok (if decide (p root = EmptyString) then "/" else p root))
  /\ forall (leaf : string) (c : PathQuery),
       PathQueryCreateChild PATH_MAX (Some root) (Some leaf) = Ok c ->
       p root <> EmptyString -> p c <> EmptyString -> p c <> "/" ->
       (String.length (p root) + String.length (p c) + 2 < PATH_MAX)%nat ->
       PathQueryGetPath PATH_MAX (Some c) = Ok (p root +:+ "/" +:+ p c).
Proof.
  intros Hroot.
  assert (Hb : built PATH_MAX root) by (now apply (built_root PATH_MAX path)).
  destruct (PathQueryCreate_fields _ _ _ Hroot) as (_ & Hup & _).
  pose proof (segments_root _ Hup) as Hsegs.
  split.
  - intros Hfit.
    destruct (built_invariant_lemma PATH_MAX root Hb) as (_ & _ & Hall & _).
    rewrite Hsegs in Hall. apply Forall_cons_1 in Hall as [Hn _].
    assert (Hjoin : join_segments (segments root) = p root +:+ "/").
    { rewrite Hsegs. simpl. now rewrite string_app_empty_r. }
    rewrite PathQueryGetPath_fits; rewrite Hjoin.
    2: { rewrite string_length_app. simpl. lia. }
    f_equal. case_decide as He.
    + now rewrite He.
    + now apply RemoveTrailingForwardSlashes_loop_one_slash.
  - intros leaf c Hc Hr Hce Hcr Hfit.
    assert (Hbc : built PATH_MAX c) by (now apply (built_child PATH_MAX root leaf)).
    destruct (PathQueryCreateChild_fields _ _ _ _ Hc) as (_ & Hpar & _).
    destruct (built_invariant_lemma PATH_MAX c Hbc) as (_ & _ & Hall & _).
    rewrite (segments_child _ _ Hpar), Hsegs in Hall.
    apply Forall_cons_1 in Hall as [_ [Hn _]%Forall_cons_1].
    assert (Hjoin : join_segments (segments c) = p root +:+ "/" +:+ p c +:+ "/").
    { rewrite (segments_child _ _ Hpar), Hsegs. simpl.
      now rewrite string_app_empty_r. }
    rewrite PathQueryGetPath_fits; rewrite Hjoin.
    2: { rewrite !string_length_app. simpl. lia. }
    f_equal.
    replace (p root +:+ "/" +:+ p c +:+ "/")
      with ((p root +:+ "/" +:+ p c) +:+ "/")
      by now rewrite !string_app_assoc.
    apply RemoveTrailingForwardSlashes_loop_one_slash.
    + destruct (p root); [congruence | discriminate].
    + left. destruct Hn as [Hn | Hn]; [|contradiction].
      rewrite <- string_app_assoc. now rewrite ends_with_slash_app.
Qed.

Lemma PathQueryGetPath_listing_witness :
  PathQueryCreate 4096 (Some "dir//") = Ok (mkPathQuery "dir" None 0)
  /\ PathQueryGetPath 4096 (Some (mkPathQuery "dir" None 0)) = Ok "dir"
  /\ PathQueryGetPath 4096
       (Some (mkPathQuery "a.txt" (Some (mkPathQuery "dir" None 0)) 1))
     = Ok "dir/a.txt".
Proof.
  assert (H : PathQueryCreate 4096 (Some "dir//") = Ok (mkPathQuery "dir" None 0))
    by reflexivity.
  destruct (PathQueryGetPath_listing 4096 "dir//" _ H) as [Hroot Hchild].
  split; [exact H | split].
  - apply Hroot. simpl. lia.
  - apply (Hchild "./a.txt/"); try reflexivity; try discriminate. simpl. lia.
Defined.

(** ** The path list as one sequence *)

Lemma PathListGetPathAtIndex_lookup (ps : PathList) (i : nat) :
  PathListGetPathAtIndex (Some ps) i
  = match (arrayfile ps ++ arraydir ps) !! i with
    | Some s => Ok s
    | None => Err 1
    end.
Proof.
  unfold PathListGetPathAtIndex, PathListGetSize, sizefile, sizedir.
  destruct (Nat.leb_spec (length (arrayfile ps) + length (arraydir ps)) i)
    as [Hge | Hlt].
  - rewrite (proj2 (lookup_ge_None _ _)); [reflexivity|].
    rewrite length_app. lia.
  - destruct (Nat.ltb_spec i (length (arrayfile ps))) as [Hf | Hd].
    + rewrite lookup_app_l by assumption.
      rewrite (list_lookup_lookup_total_lt _ _ Hf). now rewrite strncpy_whole.
    + rewrite lookup_app_r by assumption.
      rewrite (list_lookup_lookup_total_lt (arraydir ps)) by lia.
      now rewrite strncpy_whole.
Qed.

(** X4. The accessor presents the two arrays as one sequence, the files
    followed by the directories: an index within it is answered with the
    element at that index, any other index with return value 1. *)
Theorem PathListGetPathAtIndex_sequence (ps : PathList) (i : nat) :
  PathListGetPathAtIndex (Some ps) i
  = match (arrayfile ps ++ arraydir ps) !! i with
    | Some s => Ok s
    | None => Err 1
    end.
Proof. apply PathListGetPathAtIndex_lookup. Qed.


(** ** Adding a path *)

(** X5. When the allocator answers, adding a path appends it to the
    files if [isFile] holds of it and to the directories otherwise,
    without looking for an equal element: the size grows by one, the path
    is read back at the end of its array, and every element already in
    the list is read back as before, one index later when it is a
    directory and the path went to the files. *)
Theorem PathListAddPath_appends (isFile : string -> bool) (ps : PathList)
    (path : string) :
  exists ps' : PathList,
    PathListAddPath isFile (Some ps) (Some path) (true, true) = ([], Ok ps')
    /\ arrayfile ps' = (if isFile path then arrayfile ps ++ [path] else arrayfile ps)
    /\ arraydir ps' = (if isFile path then arraydir ps else arraydir ps ++ [path])
    /\ PathListGetSize (Some ps') = S (PathListGetSize (Some ps))
    /\ PathListGetPathAtIndex (Some ps')
         (if isFile path then sizefile ps else PathListGetSize (Some ps))
       = Ok path
    /\ forall (i : nat) (s : string),
         PathListGetPathAtIndex (Some ps) i = Ok s ->
         PathListGetPathAtIndex (Some ps')
           (if isFile path && (sizefile ps <=? i)%nat then S i else i)
         = Ok s.
Proof.
  unfold PathListAddPath, AddPathToArray. cbn [fst snd negb].
  destruct (isFile path) eqn:Hfile; cbn [andb].
  - exists (mkPathList (arrayfile ps ++ [path]) (arraydir ps)).
    cbn [arrayfile arraydir].
    split; [reflexivity | split; [reflexivity | split; [reflexivity|]]].
    split; [|split].
    + unfold PathListGetSize, sizefile, sizedir. cbn [arrayfile arraydir].
      rewrite length_app. simpl. lia.
    + rewrite PathListGetPathAtIndex_lookup. cbn [arrayfile arraydir].
      unfold sizefile. rewrite <- app_assoc. cbn [app].
      now rewrite list_lookup_middle.
    + intros i s. rewrite !PathListGetPathAtIndex_lookup.
      cbn [arrayfile arraydir].
      destruct ((arrayfile ps ++ arraydir ps) !! i) as [s'|] eqn:Hi; [|discriminate].
      intros [= ->]. unfold sizefile.
      destruct (Nat.leb_spec (length (arrayfile ps)) i) as [Hge | Hlt].
      * rewrite lookup_app_r in Hi by assumption.
        rewrite <- app_assoc, lookup_app_r by lia. cbn [app].
        replace (S i - length (arrayfile ps))%nat
          with (S (i - length (arrayfile ps))) by lia.
        simpl. now rewrite Hi.
      * rewrite lookup_app_l in Hi by assumption.
        rewrite <- app_assoc, lookup_app_l by assumption. now rewrite Hi.
  - exists (mkPathList (arrayfile ps) (arraydir ps ++ [path])).
    cbn [arrayfile arraydir].
    split; [reflexivity | split; [reflexivity | split; [reflexivity|]]].
    split; [|split].
    + unfold PathListGetSize, sizefile, sizedir. cbn [arrayfile arraydir].
      rewrite length_app. simpl. lia.
    + rewrite PathListGetPathAtIndex_lookup. cbn [arrayfile arraydir].
      unfold PathListGetSize, sizefile, sizedir.
      rewrite app_assoc, <- length_app. now rewrite list_lookup_middle.
    + intros i s. rewrite !PathListGetPathAtIndex_lookup.
      cbn [arrayfile arraydir].
      destruct ((arrayfile ps ++ arraydir ps) !! i) as [s'|] eqn:Hi; [|discriminate].
      intros [= ->]. rewrite app_assoc.
      rewrite lookup_app_l by (now apply lookup_lt_Some in Hi).
      now rewrite Hi.
Qed.

(** X6. When [realloc] or [BFStringCopyString] answers no block, adding a
    path writes one message and returns 1. *)
Theorem PathListAddPath_allocation_failure (isFile : string -> bool)
    (ps : PathList) (path : string) (mem : bool * bool) :
  mem <> (true, true) ->
  exists format args,
    PathListAddPath isFile (Some ps) (Some path) mem
    = ([Printf format args], Err 1).
Proof.
  intros Hmem. unfold PathListAddPath, AddPathToArray.
  destruct mem as [[] []]; try congruence; simpl;
    destruct (isFile path); eauto.
Qed.

Lemma PathListAddPath_allocation_failure_witness :
  (true, false) <> (true, true)
  /\ exists format args,
       PathListAddPath (fun _ => true) (Some (mkPathList ["a"] [])) (Some "b")
         (true, false)
       = ([Printf format args], Err 1).
Proof.
  assert (H : (true, false) <> (true, true)) by discriminate.
  split; [exact H|].
  exact (PathListAddPath_allocation_failure (fun _ => true)
           (mkPathList ["a"] []) "b" (true, false) H).
Defined.

(** ** The sorted path list *)

#[local] Instance str_le_transitive : Transitive str_le.
Proof. intros a b c. apply str_le_trans. Qed.

#[local] Instance str_le_antisymm : AntiSymm (=) str_le.
Proof. intros a b. apply str_le_antisym. Qed.

Lemma adjacent_sorted_Sorted (l : list string) :
  adjacent_sorted l -> Sorted str_le l.
Proof.
  induction l as [|x l IH]; intros H; [constructor|].
  constructor.
  - apply IH. intros k a b Ha Hb. exact (H (S k) a b Ha Hb).
  - destruct l as [|y l]; constructor. exact (H 0%nat x y eq_refl eq_refl).
Qed.

Lemma ArraySort_loop_adjacent (l : list string) :
  adjacent_sorted (ArraySort_loop l (length l)).
Proof.
  destruct (ArraySort_loop_spec l (length l)) as (Hlen & _ & Hsorted); [lia|].
  set (r := ArraySort_loop l (length l)) in *.
  rewrite <- Hlen in Hsorted. now apply sorted_upto_adjacent.
Qed.

Lemma ArraySort_loop_Permutation (l : list string) :
  Permutation (ArraySort_loop l (length l)) l.
Proof. destruct (ArraySort_loop_spec l (length l)) as (_ & H & _); [lia | exact H]. Qed.

Lemma ArraySort_loop_canonical (l l' : list string) :
  Permutation l l' ->
  ArraySort_loop l (length l) = ArraySort_loop l' (length l').
Proof.
  intros Hperm. apply (Sorted_unique str_le).
  - apply adjacent_sorted_Sorted, ArraySort_loop_adjacent.
  - apply adjacent_sorted_Sorted, ArraySort_loop_adjacent.
  - rewrite !ArraySort_loop_Permutation. exact Hperm.
Qed.

(** X7. The result of sorting depends only on the strings in the array
    and on how often each occurs, not on their order: two arrays that are
    permutations of each other are sorted to the same array. *)
Theorem ArraySort_canonical (l l' : list string) :
  Permutation l l' ->
  ArraySort (Some l) (length l) = ArraySort (Some l') (length l').
Proof.
  intros Hperm. unfold ArraySort. f_equal. now apply ArraySort_loop_canonical.
Qed.

Lemma ArraySort_canonical_witness :
  Permutation ["b"; "a"; "c"; "a"] ["a"; "c"; "a"; "b"]
  /\ ArraySort (Some ["b"; "a"; "c"; "a"]) 4 = ArraySort (Some ["a"; "c"; "a"; "b"]) 4.
Proof.
  assert (H : Permutation ["b"; "a"; "c"; "a"] ["a"; "c"; "a"; "b"]).
  { apply (Permutation_cons_app ["a"; "c"; "a"] []). reflexivity. }
  split; [exact H|].
  exact (ArraySort_canonical _ _ H).
Defined.

Lemma PathListSort_array_sorts (l : list string) :
  PathListSort_array l = (0, ArraySort_loop l (length l)).
Proof. destruct l; reflexivity. Qed.

(** X8. Sorting a path list succeeds without writing anything; it
    leaves the files in order and the directories in order, each array a
    permutation of what it was, and sorting the result again changes
    nothing. *)
Theorem PathListSort_sorts (ps : PathList) :
  exists ps' : PathList,
    PathListSort (Some ps) = ([], Ok ps')
    /\ adjacent_sorted (arrayfile ps') /\ adjacent_sorted (arraydir ps')
    /\ Permutation (arrayfile ps') (arrayfile ps)
    /\ Permutation (arraydir ps') (arraydir ps)
    /\ PathListGetSize (Some ps') = PathListGetSize (Some ps)
    /\ PathListSort (Some ps') = ([], Ok ps').
Proof.
  exists (mkPathList (ArraySort_loop (arrayfile ps) (length (arrayfile ps)))
                     (ArraySort_loop (arraydir ps) (length (arraydir ps)))).
  unfold PathListSort. rewrite !PathListSort_array_sorts. cbn [arrayfile arraydir].
  split; [reflexivity|].
  split; [apply ArraySort_loop_adjacent|].
  split; [apply ArraySort_loop_adjacent|].
  split; [apply ArraySort_loop_Permutation|].
  split; [apply ArraySort_loop_Permutation|].
  split.
  - unfold PathListGetSize, sizefile, sizedir. cbn [arrayfile arraydir].
    now rewrite !(Permutation_length (ArraySort_loop_Permutation _)).
  - cbn [negb Z.eqb].
    rewrite !(Permutation_length (ArraySort_loop_Permutation _)).
    rewrite !(ArraySort_loop_sorted (ArraySort_loop _ _));
      [reflexivity | |];
      rewrite <- (Permutation_length (ArraySort_loop_Permutation _)) at 1 2;
      apply adjacent_sorted_upto, ArraySort_loop_adjacent.
Qed.


(** ** Rendering one entry *)

(** X9. What a call of [PathQueryPrintPath] on a node gives, by what
    the system answers for the full path of the node.  When the
    link-aware fetch fails, or the entry is not a symlink and the
    following fetch fails, it writes the message of that failure and
    returns 1.  When the metadata stage succeeds and the size formatting
    fails, it writes nothing and returns the error of the formatting.
    Otherwise it reaches the presentation of the entry, from its displayed
    path, that metadata, the formatted size and the link description: the
    detailed one when the list has one path and the node level 0, the
    brief one otherwise; that presentation is all it writes and it
    returns 0, unless the presentation is the detailed one and one of its
    lookups does not answer, where the behaviour is undefined.  So a
    call that returns has returned 0 exactly when it has written the
    presentation, and the behaviour is undefined in that one case
    only. *)
Theorem PathQueryPrintPath_status (PATH_MAX : nat) (os : OS) (q : PathQuery)
    (a : Arguments) :
  let path := written (PathQueryGetPath PATH_MAX (Some q)) in
  let call := PathQueryPrintPath PATH_MAX os (Some q) (Some a) in
  let detail :=
    (PathListGetSize (Some (paths a)) =? 1)%nat
    && (PathQueryGetLevel (Some q) =? 0) in
  (forall e : int,
     lstat os path = Err e ->
     call = Some ([Printf "error: (path: %s) lstat %d\n" [ArgS path; ArgD e]],
                  1))
  /\ (forall (st : struct_stat) (e : int),
        lstat os path = Ok st ->
        S_ISLNK (st_mode st) = false ->
        stat os path = Err e ->
        call = Some ([Printf "error: stat %d\n" [ArgD e]], 1))
  /\ (forall (st : struct_stat) (linkdesc : string) (error : int)
        (sizebuf : string),
        PathQueryPrintPath_stat PATH_MAX os path = inr (st, linkdesc) ->
        BFByteGetString os (st_size st mod 2 ^ 64) = (error, sizebuf) ->
        (error <> 0 -> call = Some ([], error))
        /\ (error = 0 ->
            exists item : string,
              GetPrintablePath PATH_MAX os (Some q) (Some a) = ([], Ok item)
              /\ call = presented os detail item st sizebuf linkdesc))
  /\ (forall (out : list Output) (code : int),
        call = Some (out, code) ->
        (code = 0
         /\ exists e, out = [e]
                      /\ is_detail e || is_brief e = true
                      /\ is_detail e = detail)
        \/ (code <> 0
            /\ forall e, In e out -> is_detail e || is_brief e = false))
  /\ (call = None ->
      detail = true
      /\ exists item st linkdesc,
           GetPrintablePath PATH_MAX os (Some q) (Some a) = ([], Ok item)
           /\ PathQueryPrintPath_stat PATH_MAX os path = inr (st, linkdesc)
           /\ lookups_answer os item st = false).
Proof.
  intros path call detail. split; [|split; [|split; [|split]]].
  - intros e Hl. unfold call, PathQueryPrintPath, PathQueryPrintPath_stat.
    fold path. now rewrite Hl.
  - intros st e Hl Hs Hf.
    unfold call, PathQueryPrintPath, PathQueryPrintPath_stat.
    fold path. now rewrite Hl, Hs, Hf.
  - intros st linkdesc error sizebuf Hstat Hb. split.
    + intros Hne. unfold call, PathQueryPrintPath. fold path.
      rewrite Hstat, Hb. now destruct (Z.eqb_spec error 0).
    + intros ->.
      destruct (PathQueryPrintPath_renders PATH_MAX os q a st linkdesc Hstat)
        as (item & Hitem & Hpp); [now rewrite Hb|].
      exists item. split; [exact Hitem|].
      unfold call, detail. rewrite Hpp, Hb. reflexivity.
  - intros out code. apply PathQueryPrintPath_outcome.
  - intros Hnone.
    destruct (PathQueryPrintPath_undefined PATH_MAX os q a Hnone)
      as (Hsize & Hlevel & Hlook).
    split; [|exact Hlook]. unfold detail. rewrite Hsize, Hlevel. reflexivity.
Qed.

Lemma PathQueryPrintPath_status_witness :
  let link := mkPathQuery "link" None 0 in
  let dangling := mkPathQuery "dangling" None 0 in
  PathQueryPrintPath_stat 4096 example_os "link"
  = inr (example_link, " -> target")
  /\ BFByteGetString example_os (st_size example_link mod 2 ^ 64) = (0, "4 b")
  /\ (exists item,
        GetPrintablePath 4096 example_os (Some link)
          (Some (example_arguments ["a"; "link"] [])) = ([], Ok item)
        /\ PathQueryPrintPath 4096 example_os (Some link)
             (Some (example_arguments ["a"; "link"] []))
           = Some ([rendering false item example_link "4 b" " -> target"], 0))
  /\ (exists item,
        GetPrintablePath 4096 example_os (Some link)
          (Some (example_arguments ["link"] [])) = ([], Ok item)
        /\ PathQueryPrintPath 4096 example_os (Some link)
             (Some (example_arguments ["link"] []))
           = Some ([rendering true item example_link "4 b" " -> target"], 0))
  /\ PathQueryPrintPath 4096 example_os (Some dangling)
       (Some (example_arguments ["dangling"] [])) = None
  /\ exists item st linkdesc,
       GetPrintablePath 4096 example_os (Some dangling)
         (Some (example_arguments ["dangling"] [])) = ([], Ok item)
       /\ PathQueryPrintPath_stat 4096 example_os
            (written (PathQueryGetPath 4096 (Some dangling)))
          = inr (st, linkdesc)
       /\ lookups_answer example_os item st = false.
Proof.
  intros link dangling.
  assert (Hstat : PathQueryPrintPath_stat 4096 example_os "link"
                  = inr (example_link, " -> target")) by reflexivity.
  assert (Hb : BFByteGetString example_os (st_size example_link mod 2 ^ 64)
               = (0, "4 b")) by reflexivity.
  assert (Hnone : PathQueryPrintPath 4096 example_os (Some dangling)
                    (Some (example_arguments ["dangling"] [])) = None)
    by (vm_compute; reflexivity).
  split; [exact Hstat | split; [exact Hb | split; [|split; [|split]]]].
  - exact (proj2 (proj1 (proj2 (proj2
             (PathQueryPrintPath_status 4096 example_os link
                (example_arguments ["a"; "link"] []))))
             example_link " -> target" 0 "4 b" Hstat Hb) eq_refl).
  - destruct (proj2 (proj1 (proj2 (proj2
                (PathQueryPrintPath_status 4096 example_os link
                   (example_arguments ["link"] []))))
                example_link " -> target" 0 "4 b" Hstat Hb) eq_refl)
      as (item & Hitem & H).
    exists item. split; [exact Hitem|].
    injection Hitem as <-. exact H.
  - exact Hnone.
  - exact (proj2 (proj2 (proj2 (proj2 (proj2
             (PathQueryPrintPath_status 4096 example_os dangling
                (example_arguments ["dangling"] []))))) Hnone)).
Defined.

Lemma PathQueryPrintPath_paths (PATH_MAX : nat) (os : OS) (q : PathQuery)
    (a a' : Arguments) :
  paths a = paths a' ->
  PathQueryPrintPath PATH_MAX os (Some q) (Some a)
  = PathQueryPrintPath PATH_MAX os (Some q) (Some a').
Proof.
  intros H. unfold PathQueryPrintPath, GetPrintablePath. now rewrite H.
Qed.

(** ** Listing a directory *)



(** ** The order of the traversal *)







(** ** Permissions and colours *)

Lemma land_bit_eqb (x : Z) (i : nat) :
  (Z.land x (Z.shiftl 1 (Z.of_nat i)) =? 0) = negb (Z.testbit x (Z.of_nat i)).
Proof.
  rewrite Z.shiftl_1_l.
  destruct (Z.testbit x (Z.of_nat i)) eqn:E; simpl.
  - apply Z.eqb_neq. intros H.
    assert (Hb : Z.testbit (Z.land x (2 ^ Z.of_nat i)) (Z.of_nat i) = true).
    { rewrite Z.land_spec, E, Z.pow2_bits_true by lia. reflexivity. }
    rewrite H, Z.bits_0 in Hb. discriminate.
  - apply Z.eqb_eq. apply Z.bits_inj'. intros n Hn.
    rewrite Z.land_spec, Z.bits_0.
    destruct (Z.eq_dec (Z.of_nat i) n) as [<- | Hne].
    + now rewrite E.
    + rewrite Z.pow2_bits_false by lia. apply andb_false_r.
Qed.

Ltac compute_strings :=
  repeat match goal with
         | |- context [String.length ?s] =>
             let n := eval vm_compute in (String.length s) in
             progress change (String.length s) with n
         | |- context [?a +:+ ?b] =>
             let r := eval vm_compute in (a +:+ b) in
             progress change (a +:+ b) with r
         end.

Lemma PermissionsGetStringDescription_text (permissions : Z) (bufsize : nat) :
  PermissionsGetStringDescription permissions bufsize
  = if (String.length (join_comma (permission_words permissions)) <? bufsize)%nat
    then Some (join_comma (permission_words permissions))
    else None.
Proof.
  unfold PermissionsGetStringDescription, permission_words.
  destruct (Nat.eqb_spec bufsize 0) as [-> | Hsize].
  { now destruct (Nat.ltb_spec (String.length
       (join_comma ((if Z.testbit permissions 0 then ["Executable"] else [])
          ++ (if Z.testbit permissions 1 then ["Writable"] else [])
          ++ (if Z.testbit permissions 2 then ["Readable"] else [])))) 0); [lia|]. }
  cbn [for_loop length PermissionsGetStringDescription_arr].
  rewrite (land_bit_eqb permissions 0), (land_bit_eqb permissions 1),
    (land_bit_eqb permissions 2).
  change (Z.of_nat 0) with 0. change (Z.of_nat 1) with 1. change (Z.of_nat 2) with 2.
  destruct (Z.testbit permissions 0), (Z.testbit permissions 1),
    (Z.testbit permissions 2); cbn [negb app join_comma lookup_total];
    unfold strcat; simpl; compute_strings;
    repeat match goal with
           | |- context [(?k <? bufsize)%nat] =>
               destruct (Nat.ltb_spec k bufsize); simpl; compute_strings
           end;
    try reflexivity; lia.
Qed.

(** X12. [PermissionsGetStringDescription] leaves in the buffer the words
    [Executable], [Writable] and [Readable], in that order, for those of
    the bits 0, 1 and 2 of its argument that are set, separated by a comma
    and a space, whatever the other bits are; it writes past the buffer
    exactly when that text and its terminator do not fit. *)
Theorem PermissionsGetStringDescription_words (permissions : Z) (bufsize : nat) :
  PermissionsGetStringDescription permissions bufsize
  = (if (String.length (join_comma (permission_words permissions)) <? bufsize)%nat
     then Some (join_comma (permission_words permissions))
     else None)
  /\ (String.length (join_comma (permission_words permissions)) <= 30)%nat
  /\ permission_words permissions = permission_words (permissions mod 8).
Proof.
  split; [apply PermissionsGetStringDescription_text | split].
  - unfold permission_words.
    destruct (Z.testbit permissions 0), (Z.testbit permissions 1),
      (Z.testbit permissions 2); vm_compute; lia.
  - unfold permission_words. change 8 with (2 ^ 3).
    now rewrite !Z.mod_pow2_bits_low by lia.
Qed.

Lemma permission_text_length (permissions : Z) :
  (String.length (join_comma (permission_words permissions)) <= 30)%nat.
Proof.
  unfold permission_words.
  destruct (Z.testbit permissions 0), (Z.testbit permissions 1),
    (Z.testbit permissions 2); vm_compute; lia.
Qed.

Lemma permission_words_masked (m mask : Z) (shift : Z) :
  0 <= shift ->
  Z.testbit mask shift = true ->
  Z.testbit mask (shift + 1) = true ->
  Z.testbit mask (shift + 2) = true ->
  permission_words (Z.shiftr (Z.land m mask) shift)
  = permission_words (Z.shiftr m shift).
Proof.
  intros Hs H0 H1 H2. unfold permission_words.
  rewrite !Z.shiftr_spec, !Z.land_spec by lia.
  replace (0 + shift) with shift by lia.
  replace (1 + shift) with (shift + 1) by lia.
  replace (2 + shift) with (shift + 2) by lia.
  now rewrite H0, H1, H2, !andb_true_r.
Qed.

(** X13. The permission lines of the detail presentation describe, for
    the owner, the bits 6 to 8 of the mode, for the group, the bits 3 to 5
    and, for the others, the bits 0 to 2; the 512-byte buffer is never
    exceeded. *)
Theorem PathQueryPrintPathDetail_permissions_lines (m : Z) :
  PathQueryPrintPathDetail_permissions m
  = Some [Printf "Permissions:\n" [];
          Printf "  Owner: %s\n"
            [ArgS (join_comma (permission_words (Z.shiftr m 6)))];
          Printf "  Group: %s\n"
            [ArgS (join_comma (permission_words (Z.shiftr m 3)))];
          Printf "  Other: %s\n" [ArgS (join_comma (permission_words m))]].
Proof.
  unfold PathQueryPrintPathDetail_permissions.
  rewrite !PermissionsGetStringDescription_text.
  change (3 * 2) with 6. change (3 * 1) with 3. change (3 * 0) with 0.
  rewrite (permission_words_masked m S_IRWXU 6),
    (permission_words_masked m S_IRWXG 3),
    (permission_words_masked m S_IRWXO 0) by (reflexivity || lia).
  rewrite Z.shiftr_0_r.
  pose proof (permission_text_length (Z.shiftr m 6)).
  pose proof (permission_text_length (Z.shiftr m 3)).
  pose proof (permission_text_length m).
  repeat match goal with
         | |- context [(?k <? 512)%nat] =>
             destruct (Nat.ltb_spec k 512); [|lia]
         end.
  reflexivity.
Qed.

(** X14. The colour of an entry is a function of its type tag: magenta
    for a directory, cyan for a symlink, green for a regular file and for
    an unknown type, red for the devices, the fifo and the socket. *)
Theorem StatGetModeTypeColor_of_type (st : struct_stat) :
  StatGetModeTypeColor st = color_of_type (StatGetModeType st).
Proof.
  unfold StatGetModeTypeColor, StatGetModeType.
  repeat match goal with
         | |- context [Z.land (st_mode st) S_IFMT =? ?c] =>
             destruct (Z.land (st_mode st) S_IFMT =? c)
         end;
    reflexivity.
Qed.


(** ** Flags *)

Lemma string_has_app (c : ascii) (a b : string) :
  string_has c (a +:+ b) = string_has c a || string_has c b.
Proof.
  induction a as [|d a IH]; string_simpl; [reflexivity|].
  now rewrite IH, orb_assoc.
Qed.

Lemma string_app_snoc (pre : string) (c : ascii) (rest : string) :
  pre +:+ String c rest = (pre +:+ String c EmptyString) +:+ rest.
Proof. now rewrite string_app_assoc. Qed.

Lemma Arguments_eq (a b : Arguments) :
  paths a = paths b -> showhelp a = showhelp b ->
  showversion a = showversion b -> recursive a = recursive b ->
  briefDescription a = briefDescription b -> a = b.
Proof. destruct a, b. simpl. now intros -> -> -> -> ->. Qed.

Lemma ArgumentsReadFlagsFromArg_loop (rest : string) :
  forall (pre : string) (a : Arguments),
    for_loop (String.length rest) (String.length pre)
      (ArgumentsReadFlagsFromArg_body (pre +:+ rest)) (Some (Some a))
    = Some (Some (with_flags a rest)).
Proof.
  induction rest as [|c rest IH]; intros pre a.
  - simpl. do 2 f_equal. apply Arguments_eq; simpl; now rewrite ?orb_false_r.
  - cbn [String.length for_loop]. unfold ArgumentsReadFlagsFromArg_body at 2.
    rewrite <- (Nat.add_0_r (String.length pre)) at 2.
    rewrite string_get_app_r. cbn [String.get].
    rewrite string_app_snoc.
    replace (S (String.length pre))
      with (String.length (pre +:+ String c EmptyString))
      by (rewrite string_length_app; simpl; lia).
    destruct (Ascii.eqb_spec c ARG_FLAG_RECURSIVE) as [-> | Hr];
      [|destruct (Ascii.eqb_spec c ARG_FLAG_HELP) as [-> | Hh];
        [|destruct (Ascii.eqb_spec c ARG_FLAG_VERSION) as [-> | Hv]]];
      rewrite IH; do 2 f_equal; apply Arguments_eq;
      unfold with_flags, set_recursive, set_showhelp, set_showversion,
        ARG_FLAG_RECURSIVE, ARG_FLAG_HELP, ARG_FLAG_VERSION in *;
      cbn [paths showhelp showversion recursive briefDescription string_has];
      repeat match goal with
        | |- context [Ascii.eqb ?x ?y] =>
            destruct (Ascii.eqb_spec x y); subst; try congruence
        end;
      cbn [orb]; rewrite ?orb_true_r, ?orb_false_r; reflexivity.
Qed.

Lemma ArgumentsReadFlagsFromArg_null_loop (rest : string) :
  forall pre : string,
    for_loop (String.length rest) (String.length pre)
      (ArgumentsReadFlagsFromArg_body (pre +:+ rest)) (Some None)
    = if string_has ARG_FLAG_RECURSIVE rest || string_has ARG_FLAG_HELP rest
         || string_has ARG_FLAG_VERSION rest
      then None else Some None.
Proof.
  assert (Hnone : forall n i body,
             for_loop n i (fun k st => ArgumentsReadFlagsFromArg_body body k st) None
             = None).
  { induction n as [|n IHn]; intros i body; [reflexivity | apply IHn]. }
  induction rest as [|c rest IH]; intros pre; [reflexivity|].
  cbn [String.length for_loop]. unfold ArgumentsReadFlagsFromArg_body at 2.
  rewrite <- (Nat.add_0_r (String.length pre)) at 2.
  rewrite string_get_app_r. cbn [String.get string_has].
  rewrite string_app_snoc.
  replace (S (String.length pre))
    with (String.length (pre +:+ String c EmptyString))
    by (rewrite string_length_app; simpl; lia).
  destruct (Ascii.eqb_spec c ARG_FLAG_RECURSIVE) as [-> | Hr];
    [|destruct (Ascii.eqb_spec c ARG_FLAG_HELP) as [-> | Hh];
      [|destruct (Ascii.eqb_spec c ARG_FLAG_VERSION) as [-> | Hv]]];
    rewrite ?Hnone, ?IH;
    unfold ARG_FLAG_RECURSIVE, ARG_FLAG_HELP, ARG_FLAG_VERSION in *;
    repeat match goal with
      | |- context [Ascii.eqb ?x ?y] =>
          destruct (Ascii.eqb_spec x y); subst; try congruence
      end;
    cbn [orb]; rewrite ?orb_true_r; reflexivity.
Qed.

Lemma ArgumentsReadFlagsFromArg_reads (arg : string) (a : Arguments) :
  ArgumentsReadFlagsFromArg (Some arg) (Some a)
  = Some ([], 0, Some (with_flags a arg)).
Proof.
  unfold ArgumentsReadFlagsFromArg.
  pose proof (ArgumentsReadFlagsFromArg_loop arg EmptyString a) as H.
  cbn [String.length] in H. rewrite string_app_nil in H. now rewrite H.
Qed.

(** X15. Reading the flags of an argument sets the help, version and
    recursive flags for the letters [h], [v] and [r] that occur in it, in
    any order and number, ignores every other byte, clears nothing and
    leaves the paths and the description request alone.  The guard
    rejects only two null pointers: with a null [args] alone the call
    returns 0 when the argument has none of the three letters and stores
    through the null pointer otherwise, and with a null argument alone it
    takes the length of a null string. *)
Theorem ArgumentsReadFlagsFromArg_flags (arg : string) (a : Arguments) :
  ArgumentsReadFlagsFromArg (Some arg) (Some a)
  = Some ([], 0,
          Some {| paths := paths a;
                  showhelp := showhelp a || string_has "h" arg;
                  showversion := showversion a || string_has "v" arg;
                  recursive := recursive a || string_has "r" arg;
                  briefDescription := briefDescription a |})
  /\ ArgumentsReadFlagsFromArg (Some arg) None
     = (if string_has "r" arg || string_has "h" arg || string_has "v" arg
        then None else Some ([], 0, None))
  /\ ArgumentsReadFlagsFromArg None (Some a) = None
  /\ ArgumentsReadFlagsFromArg None None
     = Some ([Printf "error: param error\n" []], 1, None).
Proof.
  split; [apply ArgumentsReadFlagsFromArg_reads | split; [|split; reflexivity]].
  unfold ArgumentsReadFlagsFromArg.
  pose proof (ArgumentsReadFlagsFromArg_null_loop arg EmptyString) as H.
  cbn [String.length] in H. rewrite string_app_nil in H. rewrite H.
  unfold ARG_FLAG_RECURSIVE, ARG_FLAG_HELP, ARG_FLAG_VERSION.
  now destruct (string_has "r" arg || string_has "h" arg || string_has "v" arg).
Qed.

(** ** Reading the command line *)

Lemma PathList_eq (a b : PathList) :
  arrayfile a = arrayfile b -> arraydir a = arraydir b -> a = b.
Proof. destruct a, b. simpl. now intros -> ->. Qed.

Lemma filter_partition_length (keep : string -> bool) (l : list string) :
  (length (List.filter keep l)
   + length (List.filter (fun s => negb (keep s)) l))%nat = length l.
Proof.
  induction l as [|x l IH]; [reflexivity|]. simpl.
  destruct (keep x); simpl; lia.
Qed.

Section ReadingArguments.
Variable os : OS.
Variable mem : nat -> bool * bool.
Hypothesis mem_answers : forall i, mem i = (true, true).

Lemma PathListAddPath_answers (ps : PathList) (path : string) (i : nat) :
  PathListAddPath (BFFileSystemPathIsFile os) (Some ps) (Some path) (mem i)
  = ([], Ok {| arrayfile :=
                 arrayfile ps
                 ++ List.filter (BFFileSystemPathIsFile os) [path];
               arraydir :=
                 arraydir ps
                 ++ List.filter (fun s => negb (BFFileSystemPathIsFile os s))
                      [path] |}).
Proof.
  unfold PathListAddPath, AddPathToArray. rewrite mem_answers. simpl.
  destruct (BFFileSystemPathIsFile os path); simpl; now rewrite app_nil_r.
Qed.

Lemma ArgumentsRead_loop (rest : list string) :
  forall (pre : list string) (a : Arguments),
    for_loop (length rest) (length pre) (ArgumentsRead_body os mem (pre ++ rest))
      (Some ([], Ok a))
    = Some ([], Ok (read_arguments (BFFileSystemPathIsFile os) (length pre) rest a)).
Proof.
  induction rest as [|arg rest IH]; intros pre a.
  - simpl. do 3 f_equal. apply Arguments_eq; simpl; rewrite ?orb_false_r;
      try reflexivity.
    apply PathList_eq; simpl; now rewrite app_nil_r.
  - cbn [length for_loop]. unfold ArgumentsRead_body at 2.
    rewrite list_lookup_total_middle by reflexivity.
    rewrite strcmp_eqb. fold (is_brief_arg arg). fold (starts_with_dash arg).
    replace (pre ++ arg :: rest) with ((pre ++ [arg]) ++ rest)
      by now rewrite <- app_assoc.
    replace (S (length pre)) with (length (pre ++ [arg]))
      by (rewrite length_app; simpl; lia).
    destruct (is_brief_arg arg) eqn:Hb.
    2: destruct ((length pre =? 1)%nat && starts_with_dash arg) eqn:Hf.
    + rewrite IH. do 3 f_equal. rewrite length_app. simpl length.
      rewrite Nat.add_1_r.
      apply Arguments_eq; unfold read_arguments, set_briefDescription;
        cbn [paths showhelp showversion recursive briefDescription
             path_arguments flag_letters existsb];
        unfold is_path_arg, is_flags_arg; rewrite ?Hb; cbn [negb andb orb app];
        rewrite ?string_app_nil, ?orb_true_r; reflexivity.
    + rewrite ArgumentsReadFlagsFromArg_reads. cbn [negb Z.eqb app].
      rewrite IH. do 3 f_equal. rewrite length_app. simpl length.
      rewrite Nat.add_1_r.
      apply Arguments_eq; unfold read_arguments, with_flags;
        cbn [paths showhelp showversion recursive briefDescription
             path_arguments flag_letters existsb];
        unfold is_path_arg, is_flags_arg; rewrite ?Hb, ?Hf;
        cbn [negb andb orb app];
        rewrite ?string_has_app, ?orb_assoc; reflexivity.
    + rewrite PathListAddPath_answers. cbn [app].
      rewrite IH. do 3 f_equal. rewrite length_app. simpl length.
      rewrite Nat.add_1_r.
      apply Arguments_eq; unfold read_arguments, set_paths;
        cbn [paths showhelp showversion recursive briefDescription
             path_arguments flag_letters existsb arrayfile arraydir];
        unfold is_path_arg, is_flags_arg; rewrite ?Hb, ?Hf;
        cbn [negb andb orb]; rewrite ?string_app_nil; try reflexivity.
      apply PathList_eq; cbn [arrayfile arraydir];
        rewrite <- app_assoc; f_equal;
        change ([arg] ++ path_arguments (S (length pre)) rest)
          with (arg :: path_arguments (S (length pre)) rest);
        simpl; now destruct (BFFileSystemPathIsFile os arg).
Qed.

Lemma ArgumentsRead_reads (argv : list string) :
  ArgumentsRead os mem (Some argv)
    (Some (mkArguments (mkPathList [] []) false false false false))
  = Some ([], Ok (arguments_of (BFFileSystemPathIsFile os) argv)).
Proof.
  unfold ArgumentsRead.
  set (zero := mkArguments (mkPathList [] []) false false false false).
  assert (Hloop : for_loop (length argv - 1) 1 (ArgumentsRead_body os mem argv)
                    (Some ([], Ok zero))
                  = Some ([], Ok (read_arguments (BFFileSystemPathIsFile os) 1
                                    (tail argv) zero))).
  { destruct argv as [|arg0 rest]; [reflexivity|].
    cbn [length tail]. rewrite Nat.sub_succ, Nat.sub_0_r.
    exact (ArgumentsRead_loop rest [arg0] zero). }
  rewrite Hloop. clear Hloop.
  unfold arguments_of, queried_paths.
  set (P := path_arguments 1 (tail argv)).
  assert (Hsize : PathListGetSize
                    (Some (paths (read_arguments (BFFileSystemPathIsFile os) 1
                                    (tail argv) zero)))
                  = length P).
  { unfold PathListGetSize, sizefile, sizedir. simpl. apply filter_partition_length. }
  rewrite Hsize. fold P.
  destruct P as [|x P'] eqn:HP.
  - cbn [length Nat.eqb]. rewrite PathListAddPath_answers. cbn [app].
    unfold PathListSort. rewrite !PathListSort_array_sorts. cbn [negb Z.eqb app].
    do 3 f_equal. unfold read_arguments, set_paths.
    cbn [paths arrayfile arraydir showhelp showversion recursive briefDescription].
    fold P. rewrite HP. reflexivity.
  - cbn [length Nat.eqb].
    unfold PathListSort. rewrite !PathListSort_array_sorts. cbn [negb Z.eqb app].
    do 3 f_equal. unfold read_arguments, set_paths.
    cbn [paths arrayfile arraydir showhelp showversion recursive briefDescription].
    fold P. rewrite HP. reflexivity.
Qed.
End ReadingArguments.

Lemma queried_paths_length (argv : list string) :
  (1 <= length (queried_paths argv))%nat.
Proof.
  unfold queried_paths. destruct (path_arguments 1 (tail argv)); simpl; lia.
Qed.

Lemma Permutation_List_filter (keep : string -> bool) (l l' : list string) :
  Permutation l l' -> Permutation (List.filter keep l) (List.filter keep l').
Proof.
  induction 1 as [|x l l' _ IH|x y l|l l' l'' _ IH1 _ IH2]; simpl.
  - constructor.
  - destruct (keep x); [now constructor | assumption].
  - destruct (keep x), (keep y); try reflexivity. constructor.
  - now transitivity (List.filter keep l').
Qed.

(** X16. When the allocator answers, [ArgumentsRead] on cleared
    arguments returns 0 and writes nothing.  The description request is
    noted wherever it stands; an argument at index 1 that begins with a
    dash gives the flag letters; every other argument is a path, and the
    current directory is the path when there is none.  The path list is
    never empty: its files are the paths of which [BFFileSystemPathIsFile]
    holds, its directories the others, each array in order. *)
Theorem ArgumentsRead_command_line (os : OS) (mem : nat -> bool * bool)
    (argv : list string) :
  (forall i, mem i = (true, true)) ->
  exists a : Arguments,
    ArgumentsRead os mem (Some argv)
      (Some (mkArguments (mkPathList [] []) false false false false))
    = Some ([], Ok a)
    /\ Permutation (arrayfile (paths a))
         (List.filter (BFFileSystemPathIsFile os) (queried_paths argv))
    /\ Permutation (arraydir (paths a))
         (List.filter (fun s => negb (BFFileSystemPathIsFile os s))
            (queried_paths argv))
    /\ adjacent_sorted (arrayfile (paths a))
    /\ adjacent_sorted (arraydir (paths a))
    /\ (1 <= PathListGetSize (Some (paths a)))%nat
    /\ showhelp a = string_has "h" (flag_letters 1 (tail argv))
    /\ showversion a = string_has "v" (flag_letters 1 (tail argv))
    /\ recursive a = string_has "r" (flag_letters 1 (tail argv))
    /\ briefDescription a = existsb is_brief_arg (tail argv).
Proof.
  intros Hmem. exists (arguments_of (BFFileSystemPathIsFile os) argv).
  split; [now apply ArgumentsRead_reads|].
  unfold arguments_of. cbn [paths arrayfile arraydir showhelp showversion recursive
                            briefDescription].
  split; [apply ArraySort_loop_Permutation|].
  split; [apply ArraySort_loop_Permutation|].
  split; [apply ArraySort_loop_adjacent|].
  split; [apply ArraySort_loop_adjacent|].
  split; [|repeat split].
  unfold PathListGetSize, sizefile, sizedir. cbn [arrayfile arraydir].
  rewrite !(Permutation_length (ArraySort_loop_Permutation _)).
  rewrite filter_partition_length. apply queried_paths_length.
Qed.

Lemma ArgumentsRead_command_line_witness :
  let argv := ["listdir"; "-rv"; "b"; "dir"; "--brief-description"; "-h"; "a"] in
  (forall i : nat, (fun _ : nat => (true, true)) i = (true, true))
  /\ queried_paths argv = ["b"; "dir"; "-h"; "a"]
  /\ ArgumentsRead example_os (fun _ => (true, true)) (Some argv)
       (Some (mkArguments (mkPathList [] []) false false false false))
     = Some ([], Ok (mkArguments (mkPathList ["-h"; "a"; "b"] ["dir"])
                       false true true true)).
Proof.
  intros argv.
  assert (Hmem : forall i : nat, (fun _ : nat => (true, true)) i = (true, true))
    by reflexivity.
  split; [exact Hmem | split; [reflexivity|]].
  destruct (ArgumentsRead_command_line example_os (fun _ => (true, true)) argv Hmem)
    as (a & Ha & _).
  rewrite Ha. vm_compute in Ha. injection Ha as <-. reflexivity.
Defined.

(** X17. The path list that [ArgumentsRead] builds does not depend on
    the order in which the paths are given: two command lines whose paths
    are permutations of each other give the same path list. *)
Theorem ArgumentsRead_order (os : OS) (mem : nat -> bool * bool)
    (argv argv' : list string) :
  (forall i, mem i = (true, true)) ->
  Permutation (queried_paths argv) (queried_paths argv') ->
  exists a a' : Arguments,
    ArgumentsRead os mem (Some argv)
      (Some (mkArguments (mkPathList [] []) false false false false))
    = Some ([], Ok a)
    /\ ArgumentsRead os mem (Some argv')
         (Some (mkArguments (mkPathList [] []) false false false false))
       = Some ([], Ok a')
    /\ paths a = paths a'.
Proof.
  intros Hmem Hperm.
  exists (arguments_of (BFFileSystemPathIsFile os) argv),
    (arguments_of (BFFileSystemPathIsFile os) argv').
  split; [now apply ArgumentsRead_reads|].
  split; [now apply ArgumentsRead_reads|].
  unfold arguments_of. cbn [paths].
  apply PathList_eq; cbn [arrayfile arraydir];
    now apply ArraySort_loop_canonical, Permutation_List_filter.
Qed.

Lemma ArgumentsRead_order_witness :
  (forall i : nat, (fun _ : nat => (true, true)) i = (true, true))
  /\ Permutation (queried_paths ["listdir"; "b"; "dir"; "a"])
       (queried_paths ["listdir"; "-r"; "a"; "b"; "dir"])
  /\ exists a a' : Arguments,
       ArgumentsRead example_os (fun _ => (true, true))
         (Some ["listdir"; "b"; "dir"; "a"])
         (Some (mkArguments (mkPathList [] []) false false false false))
       = Some ([], Ok a)
       /\ ArgumentsRead example_os (fun _ => (true, true))
            (Some ["listdir"; "-r"; "a"; "b"; "dir"])
            (Some (mkArguments (mkPathList [] []) false false false false))
          = Some ([], Ok a')
       /\ paths a = paths a'.
Proof.
  assert (Hmem : forall i : nat, (fun _ : nat => (true, true)) i = (true, true))
    by reflexivity.
  assert (Hperm : Permutation (queried_paths ["listdir"; "b"; "dir"; "a"])
                    (queried_paths ["listdir"; "-r"; "a"; "b"; "dir"])).
  { change (Permutation ["b"; "dir"; "a"] ["a"; "b"; "dir"]). symmetry.
    apply (Permutation_cons_app ["b"; "dir"] []). reflexivity. }
  split; [exact Hmem | split; [exact Hperm|]].
  exact (ArgumentsRead_order example_os (fun _ => (true, true)) _ _ Hmem Hperm).
Defined.

(** ** The process *)




(** ** Type descriptions *)

Lemma StatGetModeType_values (st : struct_stat) :
  In (StatGetModeType st)
    [STAT_MOD_TYPE_BDEV; STAT_MOD_TYPE_CDEV; STAT_MOD_TYPE_DIR;
     STAT_MOD_TYPE_FIFO; STAT_MOD_TYPE_SYMLINK; STAT_MOD_TYPE_FILE;
     STAT_MOD_TYPE_SOCKET; STAT_MOD_TYPE_UNKNOWN].
Proof.
  unfold StatGetModeType.
  repeat match goal with
         | |- context [Z.land (st_mode st) S_IFMT =? ?c] =>
             destruct (Z.land (st_mode st) S_IFMT =? c)
         end;
    simpl; tauto.
Qed.

(** X19. The descriptions tell the types apart: two entries have the
    same type description only if they have the same type tag, and only
    the unknown tag is described as unknown. *)
Theorem StatModeTypeGetStringDescription_distinct (st st' : struct_stat) :
  (StatModeTypeGetStringDescription (StatGetModeType st)
   = StatModeTypeGetStringDescription (StatGetModeType st') ->
   StatGetModeType st = StatGetModeType st')
  /\ (StatModeTypeGetStringDescription (StatGetModeType st)
      = STAT_MOD_TYPE_DESCRIPTION_UNKNOWN ->
      StatGetModeType st = STAT_MOD_TYPE_UNKNOWN).
Proof.
  pose proof (StatGetModeType_values st) as H.
  pose proof (StatGetModeType_values st') as H'.
  simpl in H, H'.
  split.
  - repeat (destruct H as [<- | H]; [|]); try contradiction;
      repeat (destruct H' as [<- | H']; [|]); try contradiction;
      vm_compute; congruence.
  - repeat (destruct H as [<- | H]; [|]); try contradiction;
      vm_compute; congruence.
Qed.

Lemma StatModeTypeGetStringDescription_distinct_witness :
  StatModeTypeGetStringDescription (StatGetModeType example_link)
  = StatModeTypeGetStringDescription (StatGetModeType example_link)
  /\ StatGetModeType example_link = StatGetModeType example_link
  /\ StatModeTypeGetStringDescription (StatGetModeType example_link)
     = "Symlink File".
Proof.
  assert (H : StatModeTypeGetStringDescription (StatGetModeType example_link)
              = StatModeTypeGetStringDescription (StatGetModeType example_link))
    by reflexivity.
  split; [exact H | split; [|reflexivity]].
  exact (proj1 (StatModeTypeGetStringDescription_distinct example_link
                  example_link) H).
Defined.

(** ** The displayed path *)

Lemma PathQueryGetPath_root (PATH_MAX : nat) (path : string) (root : PathQuery) :
  PathQueryCreate PATH_MAX (Some path) = Ok root ->
  p root <> EmptyString ->
  (String.length (p root) + 1 < PATH_MAX)%nat ->
  PathQueryGetPath PATH_MAX (Some root) = Ok (p root).
Proof.
  intros Hroot Hne Hfit.
  destruct (PathQueryCreate_fields _ _ _ Hroot) as (Hp & Hup & _).
  assert (Hjoin : join_segments (segments root) = p root +:+ "/").
  { rewrite (segments_root _ Hup). simpl. now rewrite string_app_empty_r. }
  rewrite PathQueryGetPath_fits; rewrite Hjoin.
  2: { rewrite string_length_app. simpl. lia. }
  f_equal. apply RemoveTrailingForwardSlashes_loop_one_slash; [assumption|].
  rewrite Hp. apply written_RemoveTrailingForwardSlashes_normal.
Qed.

Lemma RemoveLeadingPeriodAndForwardSlashes_length (t : string) :
  (String.length (written (RemoveLeadingPeriodAndForwardSlashes (Some t)))
   <= String.length t)%nat.
Proof.
  destruct (RemoveLeadingPeriodAndForwardSlashes_cases t) as [[rest ->] | ->];
    [|simpl; lia].
  rewrite RemoveLeadingPeriodAndForwardSlashes_strip, string_length_app. simpl. lia.
Qed.

(** X20. The path displayed for a root node is the path given with its
    trailing slashes stripped and then one leading ["./"] removed, as
    long as it is not empty and fits the buffers; the path displayed for
    a node whose level is above 0 is the [basename] of its full path. *)
Theorem GetPrintablePath_display (PATH_MAX : nat) (os : OS)
    (args : option Arguments) :
  (forall (path : string) (root : PathQuery),
     PathQueryCreate PATH_MAX (Some path) = Ok root ->
     p root <> EmptyString ->
     (String.length (p root) + 1 < PATH_MAX)%nat ->
     GetPrintablePath PATH_MAX os (Some root) args
     = ([], Ok (written (RemoveLeadingPeriodAndForwardSlashes (Some (p root))))))
  /\ forall q : PathQuery,
       0 < lvl q ->
       GetPrintablePath PATH_MAX os (Some q) args
       = ([], Ok (strncpy (basename os (written (PathQueryGetPath PATH_MAX (Some q))))
                    PATH_MAX)).
Proof.
  split.
  - intros path root Hroot Hne Hfit. unfold GetPrintablePath.
    rewrite (PathQueryGetPath_root _ _ _ Hroot Hne Hfit).
    destruct (PathQueryCreate_fields _ _ _ Hroot) as (_ & _ & Hl).
    cbn [PathQueryGetLevel]. rewrite Hl. cbn [Z.ltb Z.compare].
    pose proof (RemoveLeadingPeriodAndForwardSlashes_length (p root)) as Hlen.
    destruct (RemoveLeadingPeriodAndForwardSlashes_cases (p root))
      as [[rest Hrest] | Hsame].
    + rewrite Hrest in *. rewrite RemoveLeadingPeriodAndForwardSlashes_strip in *.
      cbn [written] in *. rewrite strncpy_fits; [reflexivity | lia].
    + rewrite Hsame in *. cbn [written] in *.
      rewrite strncpy_fits; [reflexivity | lia].
  - intros q Hl. unfold GetPrintablePath.
    destruct (PathQueryGetPath PATH_MAX (Some q)) as [buf | code] eqn:Hq;
      [|discriminate].
    cbn [PathQueryGetLevel written].
    destruct (Z.ltb_spec 0 (lvl q)); [reflexivity | lia].
Qed.

Lemma GetPrintablePath_display_witness :
  PathQueryCreate 4096 (Some "./dir//") = Ok (mkPathQuery "./dir" None 0)
  /\ GetPrintablePath 4096 example_os (Some (mkPathQuery "./dir" None 0)) None
     = ([], Ok "dir")
  /\ GetPrintablePath 4096 example_os
       (Some (mkPathQuery "a.txt" (Some (mkPathQuery "./dir" None 0)) 1)) None
     = ([], Ok "a.txt").
Proof.
  assert (H : PathQueryCreate 4096 (Some "./dir//")
              = Ok (mkPathQuery "./dir" None 0)) by reflexivity.
  split; [exact H | split].
  - rewrite (proj1 (GetPrintablePath_display 4096 example_os None) _ _ H);
      [reflexivity | discriminate | simpl; lia].
  - rewrite (proj2 (GetPrintablePath_display 4096 example_os None)
               (mkPathQuery "a.txt" (Some (mkPathQuery "./dir" None 0)) 1));
      [reflexivity | reflexivity].
Defined.
